(** * perf htop: the sampling-and-aggregation engine of tools/perf/builtin-htop.c

    A shallow embedding of builtin-htop.c.  Pointers to mutable structures
    become values that are passed in and handed back; the collaborators the
    file calls but does not define (the kernel, the record parser, the symbol
    resolver, the allocator) answer through explicit oracle arguments, so
    every function below is a total, executable Rocq function. *)

From Stdlib Require Import ZArith String Ascii Bool Lia.
From stdpp Require Import base list strings.

Open Scope Z_scope.

(** ** Constants of the kernel interface

    builtin-htop.c names these constants and takes their values from
    <errno.h> and linux/perf_event.h.  The development is parametric in
    them; [linux_abi] below is the instance the examples run with. *)

Class perf_abi := {
  EPERM : Z;
  ENOENT : Z;
  ENOMEM : Z;
  EACCES : Z;
  EINVAL : Z;
  PERF_TYPE_HARDWARE : Z;
  PERF_TYPE_SOFTWARE : Z;
  PERF_COUNT_HW_CPU_CYCLES : Z;
  PERF_COUNT_SW_CPU_CLOCK : Z;
  PERF_SAMPLE_IP : Z;
  PERF_SAMPLE_TID : Z;
  PERF_SAMPLE_ID : Z;
  PERF_SAMPLE_PERIOD : Z;
  PERF_FORMAT_ID : Z;
  PERF_RECORD_SAMPLE : Z
}.

(** The values Linux gives them. *)
Definition linux_abi : perf_abi := {|
  EPERM := 1;
  ENOENT := 2;
  ENOMEM := 12;
  EACCES := 13;
  EINVAL := 22;
  PERF_TYPE_HARDWARE := 0;
  PERF_TYPE_SOFTWARE := 1;
  PERF_COUNT_HW_CPU_CYCLES := 0;
  PERF_COUNT_SW_CPU_CLOCK := 0;
  PERF_SAMPLE_IP := 1;
  PERF_SAMPLE_TID := 2;
  PERF_SAMPLE_ID := 64;
  PERF_SAMPLE_PERIOD := 256;
  PERF_FORMAT_ID := 4;
  PERF_RECORD_SAMPLE := 9
|}.

(** What the proofs need of the constants. *)

(** errno values are positive, so [-ENOMEM] and [-EINVAL] are failures. *)
Definition abi_errno_positive `{perf_abi} : Prop :=
  0 < ENOMEM ∧ 0 < EINVAL.

(** The software clock is not the hardware cycle counter. *)
Definition abi_fallback_distinct `{perf_abi} : Prop :=
  PERF_TYPE_HARDWARE ≠ PERF_TYPE_SOFTWARE.


(** ** Machine integers *)

Definition u64_max : Z := 2 ^ 64 - 1.

(** Conversion to, and arithmetic in, [u64]. *)
Definition to_u64 (z : Z) : Z := z mod 2 ^ 64.
Definition u64_add (a b : Z) : Z := to_u64 (a + b).

Definition to_u32 (z : Z) : Z := z mod 2 ^ 32.

Definition is_u64 (z : Z) : Prop := 0 ≤ z ≤ u64_max.

(** ** C strings

    Symbol names are NUL-terminated strings; a [string] stands for the
    characters before the terminator. *)

(** [strcmp(a, b) == 0]. *)
Definition strcmp_eq (a b : string) : bool := String.eqb a b.

(** [strncmp(a, b, n) == 0]: the first [n] characters agree, or both strings
    end together before that. *)
Fixpoint strncmp_eq (a b : string) (n : nat) : bool :=
  match n with
  | O => true
  | S n' =>
      match a, b with
      | EmptyString, EmptyString => true
      | String c a', String d b' => Ascii.eqb c d && strncmp_eq a' b' n'
      | _, _ => false
      end
  end.

(** [strstr(haystack, needle) != NULL]. *)
Fixpoint strstr_found (haystack needle : string) : bool :=
  String.prefix needle haystack ||
  match haystack with
  | EmptyString => false
  | String _ rest => strstr_found rest needle
  end.

(** ** The symbol filter *)

Record symbol := {
  sym_name : string;
  sym_ignore : bool
}.

Definition symbol_set_ignore (sym : symbol) : symbol :=
  {| sym_name := sym_name sym; sym_ignore := true |}.

(** Tag samples to be skipped. *)
Definition skip_symbols : list string :=
  [ "default_idle"; "native_safe_halt"; "cpu_idle"; "enter_idle";
    "exit_idle"; "mwait_idle"; "mwait_idle_with_hints"; "poll_idle";
    "ppc64_runlatch_off"; "pseries_dedicated_idle_sleep" ]%string.

(** [if (name[0] == '.') name++;] *)
Definition skip_leading_dot (name : string) : string :=
  match name with
  | String "."%char rest => rest
  | _ => name
  end.

(** The [for] loop over [skip_symbols]: the first entry equal to [name]
    sets [sym->ignore] and ends the loop. *)
Fixpoint mark_skipped (table : list string) (name : string) (sym : symbol)
  : symbol :=
  match table with
  | [] => sym
  | entry :: table' =>
      if strcmp_eq entry name then symbol_set_ignore sym
      else mark_skipped table' name sym
  end.

(** [symbol_filter]: the return value and the symbol as the call leaves
    it. *)
Definition symbol_filter (sym : symbol) : Z * symbol :=
  let name := skip_leading_dot (sym_name sym) in
  if strcmp_eq name "_text" ||
     strcmp_eq name "_etext" ||
     strcmp_eq name "_sinittext" ||
     strncmp_eq "init_module" name 11 ||
     strncmp_eq "cleanup_module" name 14 ||
     strstr_found name "_text_start" ||
     strstr_found name "_text_end"
  then (1, sym)
  else (0, mark_skipped skip_symbols name sym).

(** ** Data model *)

(** [struct perf_event_attr], the fields builtin-htop.c touches.
    [sample_period] and [sample_freq] are one storage location (a union):
    [attr_freq] says which of the two the number is. *)
Record perf_event_attr := {
  attr_type : Z;
  attr_config : Z;
  attr_sample_period : Z;
  attr_sample_type : Z;
  attr_read_format : Z;
  attr_freq : bool;
  attr_mmap : bool;
  attr_inherit : bool
}.

(** The union's other name. *)
Definition attr_sample_freq (a : perf_event_attr) : Z := attr_sample_period a.

#[global] Instance perf_event_attr_eq_dec : EqDecision perf_event_attr.
Proof. solve_decision. Defined.

(** The location a sample resolves to: the thread's command, the module
    (map) and, when symbol resolution succeeds, the symbol. *)
Record addr_location := {
  al_comm : string;
  al_map : string;
  al_addr : Z;
  al_sym : option symbol
}.

Definition al_set_sym (al : addr_location) (s : option symbol)
  : addr_location :=
  {| al_comm := al_comm al; al_map := al_map al; al_addr := al_addr al;
     al_sym := s |}.

(** A histogram key: symbol, module and command, or raw address and command
    when the address did not resolve. *)
Inductive hist_key :=
| KeySymbol (comm module name : string)
| KeyAddress (comm : string) (addr : Z).

#[global] Instance hist_key_eq_dec : EqDecision hist_key.
Proof. solve_decision. Defined.

Definition hist_key_of (al : addr_location) : hist_key :=
  match al_sym al with
  | Some sym => KeySymbol (al_comm al) (al_map al) (sym_name sym)
  | None => KeyAddress (al_comm al) (al_addr al)
  end.

Record hist_entry := {
  he_key : hist_key;
  he_period : Z
}.

(** [hists.stats]: the aggregate counters. *)
Record events_stats := {
  total_period : Z;
  nr_events : Z → Z
}.

(** [struct hists]: the entries, oldest first, and the statistics. *)
Record hists := {
  entries : list hist_entry;
  stats : events_stats
}.

Definition hists_empty : hists :=
  {| entries := []; stats := {| total_period := 0; nr_events := λ _, 0 |} |}.

Definition hists_set_entries (h : hists) (l : list hist_entry) : hists :=
  {| entries := l; stats := stats h |}.

Definition hists_add_total_period (h : hists) (period : Z) : hists :=
  {| entries := entries h;
     stats := {| total_period := u64_add (total_period (stats h)) period;
                 nr_events := nr_events (stats h) |} |}.

Record perf_evsel := {
  attr : perf_event_attr;
  evsel_hists : hists
}.

Definition evsel_set_attr (e : perf_evsel) (a : perf_event_attr) : perf_evsel :=
  {| attr := a; evsel_hists := evsel_hists e |}.

Definition evsel_set_hists (e : perf_evsel) (h : hists) : perf_evsel :=
  {| attr := attr e; evsel_hists := h |}.

(** [struct perf_sample]. *)
Record perf_sample := {
  sample_ip : Z;
  sample_tid : Z;
  sample_period : Z;
  sample_id : Z
}.

(** One record read from a ring buffer, together with the answers the
    collaborators give when it is processed. *)
Record perf_event := {
  header_type : Z;                   (* event->header.type *)
  parse_ret : Z;                     (* perf_session__parse_sample's return *)
  parsed : perf_sample;              (* ... and the sample it decodes *)
  resolved : option addr_location;   (* thread, map and symbol lookup;
                                        None when the lookup fails *)
  alloc_ok : bool                    (* would a new hist_entry be allocated *)
}.

(** What the process writes to its terminal. *)
Inductive console_msg :=
| PrErr (msg : string)
| PrErrParse (ret : Z)               (* "Can't parse sample, err = %d" *)
| UiWarningParanoid
| UiWarning (msg : string)
| UiWarningNotSupported (a : perf_event_attr)
| UiWarningSyscall (err : Z)
| UiWarningMmap (err : Z).

(** [struct perf_session]: the session-wide histogram statistics and the
    event list ([session->evlist] and [top_evlist] are the same object);
    [console] is the terminal output so far. *)
Record perf_session := {
  session_hists : hists;
  session_evlist : list perf_evsel;
  console : list console_msg
}.

Definition session_pr (s : perf_session) (m : console_msg) : perf_session :=
  {| session_hists := session_hists s;
     session_evlist := session_evlist s;
     console := console s ++ [m] |}.

Definition session_set_hists (s : perf_session) (h : hists) : perf_session :=
  {| session_hists := h;
     session_evlist := session_evlist s;
     console := console s |}.

Definition session_set_evlist (s : perf_session) (l : list perf_evsel)
  : perf_session :=
  {| session_hists := session_hists s;
     session_evlist := l;
     console := console s |}.

(** ** The histogram aggregator (util/hist.c) *)

(** The entry with key [k] gains [period]; [None] when no entry has that
    key. *)
Fixpoint hists_accumulate (k : hist_key) (period : Z) (l : list hist_entry)
  : option (list hist_entry) :=
  match l with
  | [] => None
  | he :: l' =>
      if decide (he_key he = k)
      then Some ({| he_key := he_key he;
                    he_period := he_period he + period |} :: l')
      else match hists_accumulate k period l' with
           | Some l'' => Some (he :: l'')
           | None => None
           end
  end.

(** Modelled from the spec: [__hists__add_entry] of util/hist.c, the
    insert-or-accumulate of section 4.4.  An entry is created on the first
    sample matching its key and updated in place thereafter.  Section 4.4
    has the call increment the entry's weight by the period and names no
    width for the weight: it is the accumulated period, a sum of integers.
    Creating an entry allocates, and the call returns NULL ([None]) when
    that allocation fails. *)
Definition __hists__add_entry (h : hists) (al : addr_location) (period : Z)
    (can_alloc : bool) : option hists :=
  let k := hist_key_of al in
  match hists_accumulate k period (entries h) with
  | Some l => Some (hists_set_entries h l)
  | None =>
      if can_alloc
      then Some (hists_set_entries h
                   (entries h ++ [{| he_key := k; he_period := period |}]))
      else None
  end.

(** Modelled from the spec: [hists__inc_nr_events] of util/hist.c, which
    increments the counter of the record type (section 4.4). *)
Definition hists__inc_nr_events (h : hists) (type : Z) : hists :=
  {| entries := entries h;
     stats := {| total_period := total_period (stats h);
                 nr_events := λ t, if decide (t = type)
                                   then to_u32 (nr_events (stats h) t + 1)
                                   else nr_events (stats h) t |} |}.

(** Merging one entry into a collapsed list: it joins the first entry whose
    key is equal under the comparison policy [same], or goes last. *)
Fixpoint collapse_insert (same : hist_key → hist_key → bool)
    (he : hist_entry) (acc : list hist_entry) : list hist_entry :=
  match acc with
  | [] => [he]
  | x :: acc' =>
      if same (he_key x) (he_key he)
      then {| he_key := he_key x;
              he_period := he_period x + he_period he |} :: acc'
      else x :: collapse_insert same he acc'
  end.

(** Modelled from the spec: [hists__collapse_resort] of util/hist.c
    (section 4.4): merges the entries whose keys are equal under the
    table's comparison policy. *)
Definition hists__collapse_resort (same : hist_key → hist_key → bool)
    (h : hists) : hists :=
  hists_set_entries h
    (fold_left (λ acc he, collapse_insert same he acc) (entries h) []).

(** Placing one entry in a list ordered by descending weight, after the
    entries that weigh as much. *)
Fixpoint output_insert (he : hist_entry) (sorted : list hist_entry)
  : list hist_entry :=
  match sorted with
  | [] => [he]
  | x :: sorted' =>
      if he_period x <? he_period he
      then he :: x :: sorted'
      else x :: output_insert he sorted'
  end.

(** Modelled from the spec: [hists__output_resort] of util/hist.c
    (section 4.4): re-orders the entries by descending weight, ties broken
    by insertion order. *)
Definition hists__output_resort (h : hists) : hists :=
  hists_set_entries h
    (fold_left (λ acc he, output_insert he acc) (entries h) []).

(** The weight recorded for a key, if the list has an entry for it. *)
Fixpoint entries_weight (l : list hist_entry) (k : hist_key) : option Z :=
  match l with
  | [] => None
  | he :: l' =>
      if decide (he_key he = k) then Some (he_period he)
      else entries_weight l' k
  end.

Definition hists_weight (h : hists) (k : hist_key) : option Z :=
  entries_weight (entries h) k.

(** ** Consuming the ring buffers *)

(** Modelled from the spec: [perf_event__preprocess_sample] of util/event.c
    (section 4.3): resolves the sample's address through the symbol-resolution
    collaborator and passes the resolved symbol through the filter it is
    given.  A symbol the filter rejects (non-zero return) is not in the symbol
    table, so the location carries no symbol; [None] is the negative
    return. *)
Definition perf_event__preprocess_sample (event : perf_event)
    (filter : symbol → Z * symbol) : option addr_location :=
  match resolved event with
  | None => None
  | Some al =>
      match al_sym al with
      | None => Some al
      | Some sym =>
          let '(rejected, sym') := filter sym in
          if rejected =? 0 then Some (al_set_sym al (Some sym'))
          else Some (al_set_sym al None)
      end
  end.

(** [al.sym && al.sym->ignore]. *)
Definition al_ignored (al : addr_location) : bool :=
  match al_sym al with
  | Some sym => sym_ignore sym
  | None => false
  end.

Section Sampling.
Context `{abi : perf_abi}.

(** [perf_evlist__id2evsel] of util/evlist.c: the position in the list of
    the descriptor that owns sample identifier [id], if any. *)
Variable perf_evlist__id2evsel : list perf_evsel → Z → option nat.

(** [perf_session__add_hist_entry]: the return value, the session and the
    descriptor as the call leaves them. *)
Definition perf_session__add_hist_entry (session : perf_session)
    (al : addr_location) (sample : perf_sample) (can_alloc : bool)
    (evsel : perf_evsel) : Z * perf_session * perf_evsel :=
  match __hists__add_entry (evsel_hists evsel) al (sample_period sample)
                           can_alloc with
  | None => (- ENOMEM, session, evsel)
  | Some h =>
      let h := hists_add_total_period h (sample_period sample) in
      let session :=
        session_set_hists session
          (hists_add_total_period (session_hists session)
                                  (sample_period sample)) in
      let h := hists__inc_nr_events h PERF_RECORD_SAMPLE in
      (0, session, evsel_set_hists evsel h)
  end.

(** [perf_event__process_sample]. *)
Definition perf_event__process_sample (event : perf_event)
    (sample : perf_sample) (evsel : perf_evsel) (session : perf_session)
  : Z * perf_session * perf_evsel :=
  match perf_event__preprocess_sample event symbol_filter with
  | None =>
      (-1,
       session_pr session
         (PrErr "Problem processing sample event, skipping it."),
       evsel)
  | Some al =>
      if al_ignored al then (0, session, evsel)
      else
        let '(ret, session', evsel') :=
          perf_session__add_hist_entry session al sample (alloc_ok event)
                                       evsel in
        if ret =? 0 then (0, session', evsel')
        else
          (-1,
           session_pr session'
             (PrErr "Problem incrementing symbol period, skipping event"),
           evsel')
  end.

(** Modelled from the spec: [perf_event__process] of util/event.c, which
    feeds the records that are not samples to the session's process and
    thread inventory (section 6).  The inventory is what the [resolved]
    answers of later records reflect; the histograms are not involved. *)
Definition perf_event__process (event : perf_event) (sample : perf_sample)
    (session : perf_session) : perf_session :=
  session.

(** The body of the [while] loop of
    [perf_evlist__mmap_process_events_idx], for the record [event] that
    [perf_evlist__mmap_read] returned. *)
Definition process_event (event : perf_event) (session : perf_session)
  : perf_session :=
  if negb (parse_ret event =? 0) then
    session_pr session (PrErrParse (parse_ret event))
  else if header_type event =? PERF_RECORD_SAMPLE then
    match perf_evlist__id2evsel (session_evlist session)
                                (sample_id (parsed event)) with
    | Some i =>
        match session_evlist session !! i with
        | Some evsel =>
            let '(_, session', evsel') :=
              perf_event__process_sample event (parsed event) evsel
                                         session in
            session_set_evlist session'
              (<[i := evsel']> (session_evlist session'))
        | None => session
        end
    | None => session
    end
  else perf_event__process event (parsed event) session.

(** [perf_evlist__mmap_process_events_idx]: [records] are the records
    [perf_evlist__mmap_read] returns for this buffer before it returns
    NULL. *)
Definition perf_evlist__mmap_process_events_idx
    (records : list perf_event) (session : perf_session) : perf_session :=
  fold_left (λ s event, process_event event s) records session.

(** [perf_evlist__mmap_process_events]: one list of records per mapped
    buffer, [evlist->nr_mmaps] of them. *)
Definition perf_evlist__mmap_process_events
    (buffers : list (list perf_event)) (session : perf_session)
  : perf_session :=
  fold_left (λ s records, perf_evlist__mmap_process_events_idx records s)
            buffers session.

(** The comparison policy of the configured sort order, by which
    collapsing decides that two keys are equal. *)
Variable hist_entry__collapse : hist_key → hist_key → bool.

(** [perf_evlist__fprintf_hists]: every table is collapsed and re-sorted in
    place before it is printed. *)
Definition perf_evlist__fprintf_hists (evlist : list perf_evsel)
  : Z * list perf_evsel :=
  (0,
   map (λ evsel,
          evsel_set_hists evsel
            (hists__output_resort
               (hists__collapse_resort hist_entry__collapse
                                       (evsel_hists evsel))))
       evlist).

End Sampling.

(** ** Event negotiation *)

(** The file's option variables, as [parse_options] leaves them. *)
Record options := {
  default_interval : Z;
  freq : Z;
  inherit : bool;
  group : bool;
  mmap_pages : Z;
  verbose : Z
}.

(** The defaults of the static initialisers. *)
Definition default_options : options :=
  {| default_interval := 0; freq := 1000; inherit := false; group := false;
     mmap_pages := 128; verbose := 0 |}.

Definition options_set_rate (o : options) (interval f : Z) : options :=
  {| default_interval := interval; freq := f; inherit := inherit o;
     group := group o; mmap_pages := mmap_pages o; verbose := verbose o |}.

(** A system call succeeds or fails with an [errno]. *)
Inductive sys_result :=
| SysOk
| SysErr (errno : Z).

(** The kernel counter subsystem: [sys_open n a g] answers the open of a
    descriptor with attributes [a] and group flag [g] after [n] earlier
    opens; [sys_mmap pages] answers the mapping of the ring buffers. *)
Record kernel := {
  sys_open : nat → perf_event_attr → bool → sys_result;
  sys_mmap : Z → sys_result
}.

(** What negotiation has done so far: the opens attempted, in order, and
    the warnings printed. *)
Record negotiation := {
  opens : list perf_event_attr;
  warnings : list console_msg
}.

Definition negotiation_start : negotiation :=
  {| opens := []; warnings := [] |}.

Definition neg_open (n : negotiation) (a : perf_event_attr) : negotiation :=
  {| opens := opens n ++ [a]; warnings := warnings n |}.

Definition neg_warn (n : negotiation) (m : console_msg) : negotiation :=
  {| opens := opens n; warnings := warnings n ++ [m] |}.

Definition attr_set_event (a : perf_event_attr) (type config : Z)
  : perf_event_attr :=
  {| attr_type := type; attr_config := config;
     attr_sample_period := attr_sample_period a;
     attr_sample_type := attr_sample_type a;
     attr_read_format := attr_read_format a;
     attr_freq := attr_freq a; attr_mmap := attr_mmap a;
     attr_inherit := attr_inherit a |}.

Definition attr_set_sample_period (a : perf_event_attr) (period : Z)
  : perf_event_attr :=
  {| attr_type := attr_type a; attr_config := attr_config a;
     attr_sample_period := period;
     attr_sample_type := attr_sample_type a;
     attr_read_format := attr_read_format a;
     attr_freq := attr_freq a; attr_mmap := attr_mmap a;
     attr_inherit := attr_inherit a |}.

Definition attr_set_sample_type (a : perf_event_attr) (sample_type : Z)
  : perf_event_attr :=
  {| attr_type := attr_type a; attr_config := attr_config a;
     attr_sample_period := attr_sample_period a;
     attr_sample_type := sample_type;
     attr_read_format := attr_read_format a;
     attr_freq := attr_freq a; attr_mmap := attr_mmap a;
     attr_inherit := attr_inherit a |}.

Definition attr_set_read_format (a : perf_event_attr) (read_format : Z)
  : perf_event_attr :=
  {| attr_type := attr_type a; attr_config := attr_config a;
     attr_sample_period := attr_sample_period a;
     attr_sample_type := attr_sample_type a;
     attr_read_format := read_format;
     attr_freq := attr_freq a; attr_mmap := attr_mmap a;
     attr_inherit := attr_inherit a |}.

(** [attr->freq = 1; attr->sample_freq = f;] *)
Definition attr_set_freq (a : perf_event_attr) (f : Z) : perf_event_attr :=
  {| attr_type := attr_type a; attr_config := attr_config a;
     attr_sample_period := f;
     attr_sample_type := attr_sample_type a;
     attr_read_format := attr_read_format a;
     attr_freq := true; attr_mmap := attr_mmap a;
     attr_inherit := attr_inherit a |}.

(** [attr->mmap = 1; attr->inherit = inherit;] *)
Definition attr_set_mmap_inherit (a : perf_event_attr) (inh : bool)
  : perf_event_attr :=
  {| attr_type := attr_type a; attr_config := attr_config a;
     attr_sample_period := attr_sample_period a;
     attr_sample_type := attr_sample_type a;
     attr_read_format := attr_read_format a;
     attr_freq := attr_freq a; attr_mmap := true;
     attr_inherit := inh |}.

Section Negotiation.
Context `{abi : perf_abi}.
Variable opts : options.
Variable k : kernel.

(** The attribute set-up at the head of the loop body of
    [perf_evlist__start], for a list of [nr_entries] descriptors. *)
Definition start_attr (nr_entries : Z) (a : perf_event_attr)
  : perf_event_attr :=
  let a := attr_set_sample_type a (Z.lor PERF_SAMPLE_IP PERF_SAMPLE_TID) in
  let a :=
    if negb (freq opts =? 0) then
      attr_set_freq
        (attr_set_sample_type a
           (Z.lor (attr_sample_type a) PERF_SAMPLE_PERIOD))
        (to_u64 (freq opts))
    else a in
  let a :=
    if 1 <? nr_entries then
      attr_set_read_format
        (attr_set_sample_type a (Z.lor (attr_sample_type a) PERF_SAMPLE_ID))
        (Z.lor (attr_read_format a) PERF_FORMAT_ID)
    else a in
  attr_set_mmap_inherit a (inherit opts).

(** Does the descriptor ask for the hardware cycle counter? *)
Definition is_hw_cycles (a : perf_event_attr) : bool :=
  (attr_type a =? PERF_TYPE_HARDWARE) &&
  (attr_config a =? PERF_COUNT_HW_CPU_CYCLES).

(** The [try_again:] loop for one descriptor.  Each pass through the label
    uses one unit of [fuel]; the answer is whether the descriptor opened,
    its attributes and the negotiation record, or [None] when the fuel
    does not cover the passes the code makes. *)
Fixpoint try_again (fuel : nat) (a : perf_event_attr) (n : negotiation)
  : option (bool * perf_event_attr * negotiation) :=
  match fuel with
  | O => None
  | S fuel' =>
      match sys_open k (length (opens n)) a (group opts) with
      | SysOk => Some (true, a, neg_open n a)
      | SysErr err =>
          let n := neg_open n a in
          if (err =? EPERM) || (err =? EACCES) then
            Some (false, a, neg_warn n UiWarningParanoid)
          else if is_hw_cycles a then
            let n :=
              if negb (verbose opts =? 0) then
                neg_warn n
                  (UiWarning
                     "Cycles event not supported, trying to fall back to cpu-clock-ticks")
              else n in
            try_again fuel'
              (attr_set_event a PERF_TYPE_SOFTWARE PERF_COUNT_SW_CPU_CLOCK)
              n
          else if err =? ENOENT then
            Some (false, a, neg_warn n (UiWarningNotSupported a))
          else
            Some (false, a, neg_warn n (UiWarningSyscall err))
      end
  end.

(** The [list_for_each_entry] loop of [perf_evlist__start] over the
    descriptors still to open; [false] is the jump to [out_err]. *)
Fixpoint start_entries (fuel : nat) (nr_entries : Z)
    (todo : list perf_evsel) (n : negotiation)
  : option (bool * list perf_evsel * negotiation) :=
  match todo with
  | [] => Some (true, [], n)
  | evsel :: rest =>
      match try_again fuel (start_attr nr_entries (attr evsel)) n with
      | None => None
      | Some (false, a, n) => Some (false, evsel_set_attr evsel a :: rest, n)
      | Some (true, a, n) =>
          match start_entries fuel nr_entries rest n with
          | None => None
          | Some (ok, rest', n) =>
              Some (ok, evsel_set_attr evsel a :: rest', n)
          end
      end
  end.

(** [perf_evlist__start]: the return value, the event list and the
    negotiation record. *)
Definition perf_evlist__start (fuel : nat) (evlist : list perf_evsel)
    (n : negotiation) : option (Z * list perf_evsel * negotiation) :=
  match start_entries fuel (Z.of_nat (length evlist)) evlist n with
  | None => None
  | Some (false, evlist', n) => Some (-1, evlist', n)
  | Some (true, evlist', n) =>
      match sys_mmap k (mmap_pages opts) with
      | SysErr err => Some (-1, evlist', neg_warn n (UiWarningMmap err))
      | SysOk => Some (0, evlist', n)
      end
  end.

End Negotiation.

(** ** The command *)

(** The answers of the start-up collaborators of [cmd_htop] and
    [__cmd_top]. *)
Record startup := {
  evlist_new_ok : bool;               (* perf_evlist__new *)
  parsed_options : options;           (* the option variables and ... *)
  parsed_events : list perf_evsel;    (* ... top_evlist after parse_options *)
  argc_left : Z;                      (* parse_options' return *)
  create_maps_ok : bool;              (* perf_evlist__create_maps *)
  add_default_ok : bool;              (* perf_evlist__add_default *)
  alloc_fd_ok : nat → bool;           (* perf_evsel__alloc_fd, per position *)
  alloc_pollfd_ok : bool;             (* perf_evlist__alloc_pollfd *)
  alloc_mmap_ok : bool;               (* perf_evlist__alloc_mmap *)
  symbol_init_ok : bool;              (* symbol__init *)
  session_new_ok : bool;              (* perf_session__new *)
  first_buffers : list (list perf_event);  (* the records of the first drain *)
  pthread_create_ret : sys_result     (* pthread_create *)
}.

(** One turn of the sampling loop as the outside world shapes it: the
    records waiting in each buffer, and what [poll] returns if called. *)
Record iteration := {
  it_buffers : list (list perf_event);
  it_poll : Z
}.

(** How a run ends: a return from [cmd_htop], the exit inside
    [usage_with_options], or still sampling when the iterations given are
    used up. *)
Inductive outcome :=
| Returned (status : Z)
| UsageExit
| Sampling.

Record run := {
  run_outcome : outcome;
  run_opens : list perf_event_attr;   (* descriptor opens attempted *)
  run_console : list console_msg;     (* everything printed *)
  run_polls : list Z;                 (* the timeout of every poll call *)
  run_session : option perf_session   (* the session, once created *)
}.

Definition run_stop (o : outcome) (msgs : list console_msg) : run :=
  {| run_outcome := o; run_opens := []; run_console := msgs;
     run_polls := []; run_session := None |}.

Section Command.
Context `{abi : perf_abi}.
Variable perf_evlist__id2evsel : list perf_evsel → Z → option nat.
Variable k : kernel.

(** One turn of [while (1)] in [__cmd_top]: whether the loop breaks, the
    session, and the poll timeouts so far. *)
Definition sampling_turn (it : iteration) (session : perf_session)
    (polls : list Z) : bool * perf_session * list Z :=
  let hits := total_period (stats (session_hists session)) in
  let session :=
    perf_evlist__mmap_process_events perf_evlist__id2evsel
                                     (it_buffers it) session in
  if hits =? total_period (stats (session_hists session)) then
    (it_poll it <? 0, session, polls ++ [100])
  else (false, session, polls).

(** The [while (1)] loop over the turns given. *)
Fixpoint sampling_loop (its : list iteration) (session : perf_session)
    (polls : list Z) : bool * perf_session * list Z :=
  match its with
  | [] => (false, session, polls)
  | it :: its' =>
      let '(stop, session, polls) := sampling_turn it session polls in
      if stop then (true, session, polls)
      else sampling_loop its' session polls
  end.

(** [__cmd_top], with [top_evlist] and the option variables as
    [cmd_htop] leaves them.  The return value of [perf_evlist__start] is not
    looked at.  The inventory that [perf_event__synthesize_threads] feeds to
    [perf_event__process] does not reach the histograms, and the display
    thread runs beside the loop; neither appears here. *)
Definition __cmd_top (fuel : nat) (env : startup) (opts : options)
    (top_evlist : list perf_evsel) (its : list iteration) : option run :=
  if negb (session_new_ok env) then Some (run_stop (Returned (- ENOMEM)) [])
  else
    match perf_evlist__start opts k fuel top_evlist negotiation_start with
    | None => None
    | Some (_, top_evlist, n) =>
        let session :=
          {| session_hists := hists_empty;
             session_evlist := top_evlist;
             console := warnings n |} in
        let polls := [100] in
        let session :=
          perf_evlist__mmap_process_events perf_evlist__id2evsel
                                           (first_buffers env) session in
        match pthread_create_ret env with
        | SysErr err =>
            let session :=
              session_pr session (PrErr "Could not create display thread.") in
            Some {| run_outcome := Returned (- err);
                    run_opens := opens n;
                    run_console := console session;
                    run_polls := polls;
                    run_session := Some session |}
        | SysOk =>
            let '(stop, session, polls) :=
              sampling_loop its session polls in
            Some {| run_outcome := if stop then Returned 0 else Sampling;
                    run_opens := opens n;
                    run_console := console session;
                    run_polls := polls;
                    run_session := Some session |}
        end
    end.

(** Modelled from the spec: [perf_evlist__add_default] of util/evlist.c
    adds the default descriptor, the hardware cycle counter (sections 3
    and 4.1), with every other attribute zero. *)
Definition perf_evlist__add_default (evlist : list perf_evsel)
  : list perf_evsel :=
  evlist ++
  [{| attr := {| attr_type := PERF_TYPE_HARDWARE;
                 attr_config := PERF_COUNT_HW_CPU_CYCLES;
                 attr_sample_period := 0; attr_sample_type := 0;
                 attr_read_format := 0; attr_freq := false;
                 attr_mmap := false; attr_inherit := false |};
      evsel_hists := hists_empty |}].

(** "User specified count overrides default frequency": the option
    variables after the rate is settled, or [None] when both are zero. *)
Definition settle_rate (o : options) : option options :=
  if negb (default_interval o =? 0) then
    Some (options_set_rate o (default_interval o) 0)
  else if negb (freq o =? 0) then
    Some (options_set_rate o (freq o) (freq o))
  else None.

(** The [list_for_each_entry] loop of [cmd_htop]: [None] is the jump to
    [out_free_fd]. *)
Fixpoint fill_sample_period (env : startup) (o : options) (pos : nat)
    (evlist : list perf_evsel) : option (list perf_evsel) :=
  match evlist with
  | [] => Some []
  | evsel :: rest =>
      if negb (alloc_fd_ok env pos) then None
      else
        let evsel :=
          if negb (attr_sample_period (attr evsel) =? 0) then evsel
          else evsel_set_attr evsel
                 (attr_set_sample_period (attr evsel)
                                         (to_u64 (default_interval o))) in
        match fill_sample_period env o (S pos) rest with
        | Some rest' => Some (evsel :: rest')
        | None => None
        end
  end.

(** [cmd_htop]. *)
Definition cmd_htop (fuel : nat) (env : startup) (its : list iteration)
  : option run :=
  if negb (evlist_new_ok env) then Some (run_stop (Returned (- ENOMEM)) [])
  else if negb (argc_left env =? 0) then Some (run_stop UsageExit [])
  else if negb (create_maps_ok env) then Some (run_stop UsageExit [])
  else
    let top_evlist := parsed_events env in
    if (Z.of_nat (length top_evlist) =? 0) && negb (add_default_ok env) then
      Some (run_stop (Returned (- ENOMEM))
              [PrErr "Not enough memory for event selector list"])
    else
      let top_evlist :=
        if Z.of_nat (length top_evlist) =? 0
        then perf_evlist__add_default top_evlist
        else top_evlist in
      match settle_rate (parsed_options env) with
      | None =>
          Some (run_stop (Returned (- EINVAL))
                  [PrErr "frequency and count are zero, aborting"])
      | Some opts =>
          match fill_sample_period env opts 0 top_evlist with
          | None => Some (run_stop (Returned (- ENOMEM)) [])
          | Some top_evlist =>
              if negb (alloc_pollfd_ok env) || negb (alloc_mmap_ok env) then
                Some (run_stop (Returned (- ENOMEM)) [])
              else if negb (symbol_init_ok env) then
                Some (run_stop (Returned (- ENOMEM)) [])
              else __cmd_top fuel env opts top_evlist its
          end
      end.

End Command.

(** ** Vocabulary of the specifications *)

Definition sum_periods (periods : list Z) : Z := foldr Z.add 0 periods.

(** The [total_period] of a table. *)
Definition hists_total (h : hists) : Z := total_period (stats h).

Definition evsel_total (evsel : perf_evsel) : Z :=
  hists_total (evsel_hists evsel).

Definition session_total (session : perf_session) : Z :=
  hists_total (session_hists session).

(** Two attribute sets that differ at most in the event they name: same
    period or frequency, same mode, same sample layout, same flags. *)
Definition same_settings (a b : perf_event_attr) : Prop :=
  attr_sample_period b = attr_sample_period a ∧
  attr_freq b = attr_freq a ∧
  attr_sample_type b = attr_sample_type a ∧
  attr_read_format b = attr_read_format a ∧
  attr_mmap b = attr_mmap a ∧
  attr_inherit b = attr_inherit a.

Definition flag_clear (mask flag : Z) : Prop := Z.land mask flag = 0.

Section SamplingVocabulary.
Context `{abi : perf_abi}.
Variable perf_evlist__id2evsel : list perf_evsel → Z → option nat.

(** The descriptor a record is handed to: the record parses, is a sample,
    and its identifier belongs to the descriptor at position [i]. *)
Definition routed_to (event : perf_event) (session : perf_session)
  : option (nat * perf_evsel) :=
  if negb (parse_ret event =? 0) then None
  else if header_type event =? PERF_RECORD_SAMPLE then
    match perf_evlist__id2evsel (session_evlist session)
                                (sample_id (parsed event)) with
    | Some i =>
        match session_evlist session !! i with
        | Some evsel => Some (i, evsel)
        | None => None
        end
    | None => None
    end
  else None.

(** The resolved symbol of a record is marked ignorable. *)
Definition sample_ignored (event : perf_event) : bool :=
  match perf_event__preprocess_sample event symbol_filter with
  | Some al => al_ignored al
  | None => false
  end.

(** A record is aggregated when it reaches a descriptor, its symbol is not
    ignorable and [perf_event__process_sample] reports success; the answer
    is the table it goes to and its period. *)
Definition aggregated (event : perf_event) (session : perf_session)
  : option (nat * Z) :=
  match routed_to event session with
  | Some (i, evsel) =>
      let '(ret, _, _) :=
        perf_event__process_sample event (parsed event) evsel session in
      if (ret =? 0) && negb (sample_ignored event)
      then Some (i, sample_period (parsed event))
      else None
  | None => None
  end.

(** The periods of the records of a run that are aggregated into the
    table at position [i], in order. *)
Fixpoint periods_into (i : nat) (records : list perf_event)
    (session : perf_session) : list Z :=
  match records with
  | [] => []
  | event :: records' =>
      let rest :=
        periods_into i records'
          (process_event perf_evlist__id2evsel event session) in
      match aggregated event session with
      | Some (j, p) => if decide (i = j) then p :: rest else rest
      | None => rest
      end
  end.

(** The periods of all the records of a run that are aggregated, which is
    what the session's table counts. *)
Fixpoint periods_aggregated (records : list perf_event)
    (session : perf_session) : list Z :=
  match records with
  | [] => []
  | event :: records' =>
      let rest :=
        periods_aggregated records'
          (process_event perf_evlist__id2evsel event session) in
      match aggregated event session with
      | Some (_, p) => p :: rest
      | None => rest
      end
  end.

(** A turn of the sampling loop in which draining the buffers leaves the
    session's [total_period] as it was. *)
Definition turn_idle (it : iteration) (session : perf_session) : bool :=
  session_total session =?
  session_total (perf_evlist__mmap_process_events perf_evlist__id2evsel
                   (it_buffers it) session).

(** Feeding located samples to one table through
    [perf_session__add_hist_entry], every allocation succeeding. *)
Definition add_samples (samples : list (addr_location * perf_sample))
    (session : perf_session) (evsel : perf_evsel)
  : perf_session * perf_evsel :=
  fold_left
    (λ st s,
       let '(_, session', evsel') :=
         perf_session__add_hist_entry st.1 s.1 s.2 true st.2 in
       (session', evsel'))
    samples (session, evsel).

End SamplingVocabulary.

(** The periods, in order, of the samples that fall under key [k]. *)
Definition key_periods (k : hist_key)
    (samples : list (addr_location * perf_sample)) : list Z :=
  (λ s, sample_period s.2) <$> filter (λ s, hist_key_of s.1 = k) samples.

(** The weight of an entry after one more period: a new entry starts at the
    period, an existing one adds it. *)
Definition accumulate_weight (w : option Z) (period : Z) : option Z :=
  Some (match w with
        | Some w => w + period
        | None => period
        end).

(** The [total_period] of the table at position [i] of the session's
    list. *)
Definition table_total (session : perf_session) (i : nat) : option Z :=
  evsel_total <$> session_evlist session !! i.

(** ** Example data *)

(** A descriptor for event [type]/[config] as the event parser creates it. *)
Definition evsel_new (type config period : Z) : perf_evsel :=
  {| attr := {| attr_type := type; attr_config := config;
                attr_sample_period := period; attr_sample_type := 0;
                attr_read_format := 0; attr_freq := false;
                attr_mmap := false; attr_inherit := false |};
     evsel_hists := hists_empty |}.

(** A sample record of [period] for the descriptor with identifier [id],
    resolving to symbol [name] of the kernel as seen by command "init". *)
Definition sample_event (id : Z) (name : string) (period : Z) : perf_event :=
  {| header_type := @PERF_RECORD_SAMPLE linux_abi;
     parse_ret := 0;
     parsed := {| sample_ip := 4096; sample_tid := 1;
                  sample_period := period; sample_id := id |};
     resolved := Some {| al_comm := "init"; al_map := "[kernel]";
                         al_addr := 4096;
                         al_sym := Some {| sym_name := name;
                                           sym_ignore := false |} |};
     alloc_ok := true |}.

(** Identifiers 10, 11, ... belong to the descriptors at positions
    0, 1, ...; no other identifier is known. *)
Definition id2evsel_from_10 (evlist : list perf_evsel) (id : Z) : option nat :=
  if (10 <=? id) && (id <? 10 + Z.of_nat (length evlist))
  then Some (Z.to_nat (id - 10))
  else None.

Definition session_new (evlist : list perf_evsel) : perf_session :=
  {| session_hists := hists_empty; session_evlist := evlist; console := [] |}.

(** A kernel that grants every request. *)
Definition kernel_ok : kernel :=
  {| sys_open := λ _ _ _, SysOk; sys_mmap := λ _, SysOk |}.

(** A kernel whose first open fails with [errno] and that grants every
    later request. *)
Definition kernel_first_fails (errno : Z) : kernel :=
  {| sys_open := λ n _ _, match n with O => SysErr errno | S _ => SysOk end;
     sys_mmap := λ _, SysOk |}.

(** A kernel that fails every open with [errno]. *)
Definition kernel_fails (errno : Z) : kernel :=
  {| sys_open := λ _ _ _, SysErr errno; sys_mmap := λ _, SysOk |}.

(** The default descriptor, the hardware cycle counter, after the
    attribute set-up of a one-descriptor list at the default 1 KHz. *)
Definition cycles_attr : perf_event_attr :=
  start_attr (abi := linux_abi) default_options 1 (attr (evsel_new 0 0 1000)).

Definition cpu_clock_attr : perf_event_attr := attr_set_event cycles_attr 1 0.

(** A start-up in which every collaborator succeeds, for the given option
    values and event list; the buffers are empty at the first drain. *)
Definition startup_ok (o : options) (events : list perf_evsel) : startup :=
  {| evlist_new_ok := true;
     parsed_options := o;
     parsed_events := events;
     argc_left := 0;
     create_maps_ok := true;
     add_default_ok := true;
     alloc_fd_ok := λ _, true;
     alloc_pollfd_ok := true;
     alloc_mmap_ok := true;
     symbol_init_ok := true;
     session_new_ok := true;
     first_buffers := [];
     pthread_create_ret := SysOk |}.

(** [perf htop -F 0]: no count and a zero frequency. *)
Definition zero_rate_options : options :=
  options_set_rate default_options 0 0.

(** [perf htop -c 5000]: a count, which overrides the frequency. *)
Definition count_options : options :=
  options_set_rate default_options 5000 1000.

(** A sample of [period] located at symbol [name] of the kernel. *)
Definition located_sample (name : string) (period : Z)
  : addr_location * perf_sample :=
  ({| al_comm := "init"; al_map := "[kernel]"; al_addr := 4096;
      al_sym := Some {| sym_name := name; sym_ignore := false |} |},
   {| sample_ip := 4096; sample_tid := 1; sample_period := period;
      sample_id := 10 |}).

Definition kernel_key (name : string) : hist_key :=
  KeySymbol "init" "[kernel]" name.

(** ** The display thread *)

(** [struct termios], the fields [display_thread] sets. *)
Record termios := {
  c_lflag : Z;
  c_cc_VMIN : Z;
  c_cc_VTIME : Z
}.

(** The second argument of [tcsetattr]. *)
Inductive tcsetattr_when :=
| TCSANOW
| TCSAFLUSH.

(** What the display thread does to its terminal, in order. *)
Inductive tty_action :=
| TcSetAttr (when : tcsetattr_when) (settings : termios)
| Getc
| PutsClear                         (* puts(CONSOLE_CLEAR) *)
| FprintfHists (max_rows max_cols : Z)
| Poll (timeout : Z).

(** One pass of the inner [do ... while]: the terminal geometry in
    [winsize] when the pass prints, and what [poll] on stdin returns. *)
Record refresh := {
  ws_row : Z;
  ws_col : Z;
  stdin_poll : Z
}.

(** One pass of the outer [do ... while]: the refreshes of the inner loop
    and the character [getc] returns after it. *)
Record display_round := {
  refreshes : list refresh;
  key : Z
}.

(** The character code of 'q'. *)
Definition key_q : Z := 113.

Section Display.
(** The flags of <termios.h>. *)
Variable ICANON : Z.
Variable ECHO : Z.
Variable hist_entry__collapse : hist_key → hist_key → bool.

(** [tc = save; tc.c_lflag &= ~(ICANON | ECHO); tc.c_cc[VMIN] = 0;
    tc.c_cc[VTIME] = 0;] *)
Definition display_termios (save : termios) : termios :=
  {| c_lflag := Z.land (c_lflag save) (Z.lnot (Z.lor ICANON ECHO));
     c_cc_VMIN := 0;
     c_cc_VTIME := 0 |}.

(** The inner loop of [display_thread]: clear, print, and go on while
    [poll] returns 0.  The answer says whether the loop was left, or is
    still to print when the refreshes given are used up. *)
Fixpoint display_refresh (rs : list refresh) (evlist : list perf_evsel)
    (tty : list tty_action) : bool * list perf_evsel * list tty_action :=
  match rs with
  | [] => (false, evlist, tty)
  | r :: rs' =>
      let delay_msecs := 2 * 1000 in
      let evlist := (perf_evlist__fprintf_hists hist_entry__collapse evlist).2 in
      let tty :=
        tty ++ [PutsClear; FprintfHists (ws_row r - 3) (ws_col r);
                Poll delay_msecs] in
      if stdin_poll r =? 0 then display_refresh rs' evlist tty
      else (true, evlist, tty)
  end.

(** The outer loop of [display_thread] over the rounds given: whether the
    thread has returned, the event list and the terminal actions. *)
Fixpoint display_rounds (save : termios) (rounds : list display_round)
    (evlist : list perf_evsel) (tty : list tty_action)
  : bool * list perf_evsel * list tty_action :=
  match rounds with
  | [] => (false, evlist, tty)
  | round :: rounds' =>
      let tty := tty ++ [TcSetAttr TCSANOW (display_termios save); Getc] in
      let '(out, evlist, tty) :=
        display_refresh (refreshes round) evlist tty in
      if out then
        let tty := tty ++ [Getc; TcSetAttr TCSAFLUSH save] in
        if key round =? key_q then (true, evlist, tty)
        else display_rounds save rounds' evlist tty
      else (false, evlist, tty)
  end.

(** [display_thread], for the settings [tcgetattr] reports. *)
Definition display_thread (save : termios) (rounds : list display_round)
    (top_evlist : list perf_evsel)
  : bool * list perf_evsel * list tty_action :=
  display_rounds save rounds top_evlist [].

End Display.

(** ** More vocabulary *)

(** The error codes of the "Can't parse sample" messages of a console. *)
Definition parse_errors (msgs : list console_msg) : list Z :=
  omap (λ m, match m with PrErrParse ret => Some ret | _ => None end) msgs.

(** The event a descriptor names. *)
Definition attr_event (a : perf_event_attr) : Z * Z :=
  (attr_type a, attr_config a).

(** The tables of a session: everything but the console. *)
Definition session_tables (s : perf_session) : hists * list perf_evsel :=
  (session_hists s, session_evlist s).

(** The records of a buffer that reach [perf_event__process_sample]'s
    caller as samples: they parse and carry the sample type. *)
Definition is_parsed_sample `{perf_abi} (e : perf_event) : bool :=
  (parse_ret e =? 0) && (header_type e =? PERF_RECORD_SAMPLE).

#[global] Instance tcsetattr_when_eq_dec : EqDecision tcsetattr_when.
Proof. solve_decision. Defined.

(** Is the action a [tcsetattr] with [w]? *)
Definition is_tcsetattr (w : tcsetattr_when) (a : tty_action) : bool :=
  match a with
  | TcSetAttr w' _ => bool_decide (w' = w)
  | _ => false
  end.

(** The number of times [tcsetattr] is called with [w]. *)
Definition count_tcsetattr (w : tcsetattr_when) (tty : list tty_action) : nat :=
  length (List.filter (is_tcsetattr w) tty).

(** A typical terminal: canonical input with echo. *)
Definition cooked_termios : termios :=
  {| c_lflag := 35387; c_cc_VMIN := 1; c_cc_VTIME := 0 |}.


(** The event list [cmd_htop] configures: the events of the command line,
    or the default descriptor when there are none. *)
Definition selected_events `{perf_abi} (env : startup) : list perf_evsel :=
  if Z.of_nat (length (parsed_events env)) =? 0
  then perf_evlist__add_default (parsed_events env)
  else parsed_events env.

(** A value of a C [int]. *)
Definition is_int (z : Z) : Prop := - 2 ^ 31 ≤ z < 2 ^ 31.

(** The terminal calls [display_thread] may make once [tcgetattr] has
    reported [save]: raw settings are installed at once, the saved ones with
    a flush, and every wait has the timeout of two seconds. *)
Definition tty_action_ok (ICANON ECHO : Z) (save : termios) (a : tty_action)
  : Prop :=
  match a with
  | TcSetAttr TCSANOW t => t = display_termios ICANON ECHO save
  | TcSetAttr TCSAFLUSH t => t = save
  | Poll timeout => timeout = 2000
  | _ => True
  end.

(** What the display may not change of a descriptor: its attributes and the
    statistics of its table. *)
Definition display_frame (e e' : perf_evsel) : Prop :=
  attr e' = attr e ∧ stats (evsel_hists e') = stats (evsel_hists e).

(** A turn in which nothing arrives and the wait fails. *)
Definition failing_turn : iteration :=
  {| it_buffers := [[]]; it_poll := -1 |}.

(** Two rounds of display on a 24x80 terminal: a refresh that times out, a
    key that is not 'q', then a key that is. *)
Definition two_rounds : list display_round :=
  [ {| refreshes := [ {| ws_row := 24; ws_col := 80; stdin_poll := 0 |};
                      {| ws_row := 24; ws_col := 80; stdin_poll := 1 |} ];
       key := 97 |};
    {| refreshes := [ {| ws_row := 24; ws_col := 80; stdin_poll := 1 |} ];
       key := key_q |} ].

(** [perf htop -c 7 -F 50]: a count and a frequency, both asked for. *)
Definition count_and_freq_options : options :=
  options_set_rate default_options 7 50.

(** ** Vocabulary of the sampling loop *)

Section LoopVocabulary.
Context `{abi : perf_abi}.
Variable perf_evlist__id2evsel : list perf_evsel → Z → option nat.

(** The session after the turns [its], one after the other, have each
    drained all their buffers. *)
Definition turns_drained (its : list iteration) (session : perf_session)
  : perf_session :=
  fold_left
    (λ s it,
       perf_evlist__mmap_process_events perf_evlist__id2evsel
                                        (it_buffers it) s)
    its session.

(** Turn [i] of [its] aggregates nothing new: the turns before it having
    drained their buffers, draining its own leaves the session's
    [total_period] as it was. *)
Definition turn_waits (its : list iteration) (session : perf_session)
    (i : nat) : bool :=
  match its !! i with
  | Some it =>
      turn_idle perf_evlist__id2evsel it (turns_drained (take i its) session)
  | None => false
  end.

(** Turn [i] of [its] aggregates nothing new and its wait returns an
    error. *)
Definition wait_fails (its : list iteration) (session : perf_session)
    (i : nat) : bool :=
  match its !! i with
  | Some it => turn_waits its session i && (it_poll it <? 0)
  | None => false
  end.

(** The timeouts of the waits of the turns [its]: 100 ms for every turn
    that aggregates nothing new, and no wait for the others. *)
Definition turns_waits (its : list iteration) (session : perf_session)
  : list Z :=
  (λ _, 100) <$> List.filter (turn_waits its session) (seq 0 (length its)).

End LoopVocabulary.

(** A turn that brings one sample of 1000 for symbol "schedule". *)
Definition busy_turn : iteration :=
  {| it_buffers := [[sample_event 10 "schedule" 1000]]; it_poll := -1 |}.

(** A turn that brings nothing and whose wait times out. *)
Definition quiet_turn : iteration :=
  {| it_buffers := [[]]; it_poll := 0 |}.

(** A turn that brings one sample for "schedule" at a moment when no
    histogram entry can be allocated, and whose wait would fail. *)
Definition no_memory_turn : iteration :=
  {| it_buffers :=
       [[ {| header_type := header_type (sample_event 10 "schedule" 500);
             parse_ret := 0;
             parsed := parsed (sample_event 10 "schedule" 500);
             resolved := resolved (sample_event 10 "schedule" 500);
             alloc_ok := false |} ]];
     it_poll := -1 |}.

(** ** Arithmetic in [u64] *)

Lemma to_u64_small z : is_u64 z → to_u64 z = z.
Proof.
  unfold is_u64, u64_max, to_u64. intros Hz.
  apply Z.mod_small. lia.
Qed.

Lemma u64_add_to_u64_l a b : u64_add (to_u64 a) b = to_u64 (a + b).
Proof. unfold u64_add, to_u64. apply Zplus_mod_idemp_l. Qed.

Lemma to_u64_range z : is_u64 (to_u64 z).
Proof.
  unfold is_u64, u64_max, to_u64.
  pose proof (Z.mod_pos_bound z (2 ^ 64)). lia.
Qed.

Lemma sum_periods_app l1 l2 :
  sum_periods (l1 ++ l2) = sum_periods l1 + sum_periods l2.
Proof.
  induction l1 as [|p l1 IH]; simpl.
  - reflexivity.
  - unfold sum_periods in *. simpl. rewrite IH. lia.
Qed.

Lemma sum_periods_nonneg l : Forall is_u64 l → 0 ≤ sum_periods l.
Proof.
  induction 1 as [|p l Hp _ IH]; simpl.
  - reflexivity.
  - unfold is_u64 in Hp. unfold sum_periods in *. simpl. lia.
Qed.

Lemma sum_periods_perm l1 l2 : l1 ≡ₚ l2 → sum_periods l1 = sum_periods l2.
Proof.
  induction 1 as [|x l l' _ IH|x y l|l l' l'' _ IH1 _ IH2];
    unfold sum_periods in *; simpl; lia.
Qed.

(** ** The symbol filter marks the idle symbols *)

Lemma symbol_filter_skipped sym :
  skip_leading_dot (sym_name sym) ∈ skip_symbols →
  symbol_filter sym = (0, symbol_set_ignore sym).
Proof.
  intros Hin. unfold symbol_filter.
  unfold skip_symbols in Hin.
  repeat (apply elem_of_cons in Hin as [-> | Hin]; [reflexivity|]).
  by apply elem_of_nil in Hin.
Qed.

Lemma preprocess_skipped event al sym :
  resolved event = Some al →
  al_sym al = Some sym →
  skip_leading_dot (sym_name sym) ∈ skip_symbols →
  perf_event__preprocess_sample event symbol_filter
  = Some (al_set_sym al (Some (symbol_set_ignore sym))).
Proof.
  intros Hres Hsym Hin. unfold perf_event__preprocess_sample.
  rewrite Hres, Hsym, (symbol_filter_skipped _ Hin). reflexivity.
Qed.

Example symbol_filter_text :
  symbol_filter {| sym_name := "_text"; sym_ignore := false |}
  = (1, {| sym_name := "_text"; sym_ignore := false |}).
Proof. reflexivity. Qed.

Example symbol_filter_init_module :
  (symbol_filter {| sym_name := "init_module_hook"; sym_ignore := false |}).1
  = 1 ∧
  (symbol_filter {| sym_name := "my_init_module"; sym_ignore := false |}).1
  = 0 ∧
  (symbol_filter {| sym_name := "__kernel_text_start"; sym_ignore := false |}).1
  = 1.
Proof. repeat split. Qed.

Example symbol_filter_dotted_idle :
  symbol_filter {| sym_name := ".cpu_idle"; sym_ignore := false |}
  = (0, {| sym_name := ".cpu_idle"; sym_ignore := true |}) ∧
  symbol_filter {| sym_name := "..cpu_idle"; sym_ignore := false |}
  = (0, {| sym_name := "..cpu_idle"; sym_ignore := false |}) ∧
  symbol_filter {| sym_name := "cpu_idle_wait"; sym_ignore := false |}
  = (0, {| sym_name := "cpu_idle_wait"; sym_ignore := false |}).
Proof. repeat split. Qed.

(** ** Samples that are dropped *)

Section Dropped.
Context `{abi : perf_abi}.
Variable perf_evlist__id2evsel : list perf_evsel → Z → option nat.

Lemma session_set_evlist_same session :
  session_set_evlist session (session_evlist session) = session.
Proof. by destruct session. Qed.

Lemma process_event_ignored event session :
  sample_ignored event = true →
  session_hists (process_event perf_evlist__id2evsel event session)
  = session_hists session ∧
  session_evlist (process_event perf_evlist__id2evsel event session)
  = session_evlist session.
Proof.
  intros Hign. unfold process_event.
  destruct (negb (parse_ret event =? 0)); [done|].
  destruct (header_type event =? PERF_RECORD_SAMPLE); [|done].
  destruct (perf_evlist__id2evsel _ _) as [i|]; [|done].
  destruct (session_evlist session !! i) as [evsel|] eqn:Hi; [|done].
  unfold perf_event__process_sample, sample_ignored in *.
  destruct (perf_event__preprocess_sample event symbol_filter) as [al|];
    [|done].
  rewrite Hign. simpl. by rewrite list_insert_id.
Qed.

(** C5.  A sample whose resolved symbol name, one leading dot stripped, is
    an entry of [skip_symbols] is dropped before aggregation:
    [perf_event__process_sample] returns 0 and leaves the session and the
    descriptor, hence every histogram entry and every [total_period], as
    they were; and whatever the drain loop does with the record, no table
    of the session changes. *)
Theorem idle_symbol_sample_dropped
    (event : perf_event) (al : addr_location) (sym : symbol) :
  resolved event = Some al →
  al_sym al = Some sym →
  skip_leading_dot (sym_name sym) ∈ skip_symbols →
  (∀ sample evsel session,
     perf_event__process_sample event sample evsel session
     = (0, session, evsel)) ∧
  (∀ session,
     session_hists (process_event perf_evlist__id2evsel event session)
     = session_hists session ∧
     session_evlist (process_event perf_evlist__id2evsel event session)
     = session_evlist session).
Proof.
  intros Hres Hsym Hin.
  pose proof (preprocess_skipped _ _ _ Hres Hsym Hin) as Hpre.
  split.
  - intros sample evsel session. unfold perf_event__process_sample.
    rewrite Hpre. reflexivity.
  - intros session. apply process_event_ignored.
    unfold sample_ignored. rewrite Hpre. reflexivity.
Qed.

(** C10.  A record that parses, is a sample, and whose identifier
    [perf_evlist__id2evsel] finds no descriptor for is dropped in silence:
    the session is left exactly as it was, with its tables, their
    [total_period] and event counters, and the console. *)
Theorem unmatched_sample_dropped
    (event : perf_event) (session : perf_session) :
  parse_ret event = 0 →
  header_type event = PERF_RECORD_SAMPLE →
  perf_evlist__id2evsel (session_evlist session) (sample_id (parsed event))
  = None →
  process_event perf_evlist__id2evsel event session = session.
Proof.
  intros Hparse Htype Hid. unfold process_event.
  rewrite Hparse, Htype. simpl. rewrite Z.eqb_refl, Hid. reflexivity.
Qed.

End Dropped.

Lemma idle_symbol_sample_dropped_witness :
  let event := sample_event 10 ".mwait_idle" 5 in
  let session := session_new [evsel_new 0 0 1000] in
  session_hists (process_event (abi := linux_abi) id2evsel_from_10 event
                               session)
  = session_hists session.
Proof.
  intros event session.
  refine (proj1 (proj2 (idle_symbol_sample_dropped (abi := linux_abi)
                          id2evsel_from_10 event _ _ _ _ _) session));
    [reflexivity | reflexivity | ].
  simpl. unfold skip_symbols. repeat constructor.
Defined.

Lemma unmatched_sample_dropped_witness :
  let event := sample_event 77 "schedule" 5 in
  let session := session_new [evsel_new 0 0 1000; evsel_new 1 0 1000] in
  process_event (abi := linux_abi) id2evsel_from_10 event session = session.
Proof.
  intros event session.
  apply (unmatched_sample_dropped (abi := linux_abi) id2evsel_from_10);
    reflexivity.
Defined.

(** ** Bit masks *)



(** ** Negotiation *)

Section NegotiationFacts.
Context `{abi : perf_abi}.
Variable opts : options.
Variable k : kernel.

Lemma same_settings_refl a : same_settings a a.
Proof. by repeat split. Qed.

Lemma same_settings_trans a b c :
  same_settings a b → same_settings b c → same_settings a c.
Proof. unfold same_settings. intros H1 H2. intuition congruence. Qed.

Lemma same_settings_set_event a type config :
  same_settings a (attr_set_event a type config).
Proof. by repeat split. Qed.

(** Whatever the [try_again] loop does to a descriptor, it changes at
    most the event the descriptor names. *)
Lemma try_again_settings fuel : ∀ a n ok a' n',
  try_again opts k fuel a n = Some (ok, a', n') → same_settings a a'.
Proof.
  induction fuel as [|fuel IH]; intros a n ok a' n' Hrun; [done|].
  simpl in Hrun.
  destruct (sys_open k _ a _) as [|err].
  { inversion Hrun; subst. apply same_settings_refl. }
  destruct ((err =? EPERM) || (err =? EACCES)).
  { inversion Hrun; subst. apply same_settings_refl. }
  destruct (is_hw_cycles a).
  { apply IH in Hrun.
    eapply same_settings_trans; [apply same_settings_set_event|exact Hrun]. }
  destruct (err =? ENOENT); inversion Hrun; subst; apply same_settings_refl.
Qed.

(** Once the software clock is not the hardware cycle counter, two passes
    through [try_again] are all the code makes. *)
Lemma is_hw_cycles_after_fallback a :
  abi_fallback_distinct →
  is_hw_cycles
    (attr_set_event a PERF_TYPE_SOFTWARE PERF_COUNT_SW_CPU_CLOCK) = false.
Proof.
  unfold abi_fallback_distinct, is_hw_cycles. intros Hne. simpl.
  apply andb_false_iff. left. apply Z.eqb_neq. congruence.
Qed.

Lemma try_again_second_pass fuel a n :
  abi_fallback_distinct →
  is_hw_cycles a = false →
  try_again opts k (S fuel) a n
  = match sys_open k (length (opens n)) a (group opts) with
    | SysOk => Some (true, a, neg_open n a)
    | SysErr err =>
        if (err =? EPERM) || (err =? EACCES) then
          Some (false, a, neg_warn (neg_open n a) UiWarningParanoid)
        else if err =? ENOENT then
          Some (false, a,
                neg_warn (neg_open n a) (UiWarningNotSupported a))
        else
          Some (false, a, neg_warn (neg_open n a) (UiWarningSyscall err))
    end.
Proof.
  intros _ Hcyc. simpl. destruct (sys_open k _ a _); [done|].
  by rewrite Hcyc.
Qed.


(** What the attribute set-up leaves in each field. *)
Lemma start_attr_sample_type nr a :
  attr_sample_type (start_attr opts nr a)
  = let base :=
      if negb (freq opts =? 0)
      then Z.lor (Z.lor PERF_SAMPLE_IP PERF_SAMPLE_TID) PERF_SAMPLE_PERIOD
      else Z.lor PERF_SAMPLE_IP PERF_SAMPLE_TID in
    if 1 <? nr then Z.lor base PERF_SAMPLE_ID else base.
Proof.
  unfold start_attr.
  destruct (negb (freq opts =? 0)), (1 <? nr); reflexivity.
Qed.


Lemma start_attr_freq nr a :
  attr_freq (start_attr opts nr a)
  = if negb (freq opts =? 0) then true else attr_freq a.
Proof.
  unfold start_attr.
  destruct (negb (freq opts =? 0)), (1 <? nr); reflexivity.
Qed.

Lemma start_attr_sample_period nr a :
  attr_sample_period (start_attr opts nr a)
  = if negb (freq opts =? 0) then to_u64 (freq opts)
    else attr_sample_period a.
Proof.
  unfold start_attr.
  destruct (negb (freq opts =? 0)), (1 <? nr); reflexivity.
Qed.

(** When every descriptor opens, each one carries the attributes of the
    set-up, up to the event it names. *)
Lemma start_entries_ok fuel nr : ∀ todo n l n',
  start_entries opts k fuel nr todo n = Some (true, l, n') →
  Forall2 (λ e e', evsel_hists e' = evsel_hists e ∧
                   same_settings (start_attr opts nr (attr e)) (attr e'))
          todo l.
Proof.
  induction todo as [|evsel rest IH]; intros n l n' Hrun; simpl in Hrun.
  - inversion Hrun; subst. constructor.
  - destruct (try_again opts k fuel _ n) as [[[ok a] n1]|] eqn:Htry;
      [|done].
    destruct ok; [|done].
    destruct (start_entries opts k fuel nr rest n1) as [[[ok l'] n2]|]
      eqn:Hrest; [|done].
    inversion Hrun; subst. constructor.
    + split; [reflexivity|]. simpl. eapply try_again_settings, Htry.
    + eapply IH, Hrest.
Qed.

(** The first descriptor that fails to open ends the loop: the descriptors
    after it are not touched and nothing more is opened. *)
Lemma start_entries_abort fuel nr evsel post a' : ∀ pre n pre' n1 n2,
  start_entries opts k fuel nr pre n = Some (true, pre', n1) →
  try_again opts k fuel (start_attr opts nr (attr evsel)) n1
  = Some (false, a', n2) →
  start_entries opts k fuel nr (pre ++ evsel :: post) n
  = Some (false, pre' ++ evsel_set_attr evsel a' :: post, n2).
Proof.
  induction pre as [|e pre IH]; intros n pre' n1 n2 Hpre Htry;
    simpl in Hpre.
  - inversion Hpre; subst. simpl. by rewrite Htry.
  - simpl.
    destruct (try_again opts k fuel _ n) as [[[ok a] m]|]; [|done].
    destruct ok; [|done].
    destruct (start_entries opts k fuel nr pre m) as [[[ok l'] m2]|]
      eqn:Hrest; [|done].
    inversion Hpre; subst.
    by rewrite (IH _ _ _ _ Hrest Htry).
Qed.

End NegotiationFacts.

Section NegotiationTotal.
Context `{abi : perf_abi}.
Variable opts : options.
Variable k : kernel.



End NegotiationTotal.

Section NegotiationClaims.
Context `{abi : perf_abi}.
Variable opts : options.
Variable k : kernel.


End NegotiationClaims.


Section FallbackClaims.
Context `{abi : perf_abi}.
Variable opts : options.
Variable k : kernel.

Lemma opens_after_fallback_warning n a msg :
  opens (if negb (verbose opts =? 0) then neg_warn (neg_open n a) msg
         else neg_open n a)
  = opens n ++ [a].
Proof. by destruct (negb (verbose opts =? 0)). Qed.

(** C1, as the code has it.  When the open of a descriptor fails:
    with EPERM or EACCES the descriptor fails at once; with any other
    error, unsupported-event or not, a descriptor that asks for the
    hardware cycle counter is changed to the software cpu-clock, keeping
    its period or frequency and every other setting, and opened once more,
    and it succeeds exactly when that second open does; a descriptor that
    asks for anything else fails at once.  A descriptor that fails ends
    [perf_evlist__start] with -1: the descriptors after it are not touched
    and nothing more is opened. *)
Theorem cycles_fallback_exactly_once
    (fuel : nat) (a : perf_event_attr) (n : negotiation) (err : Z) :
  abi_fallback_distinct →
  (2 ≤ fuel)%nat →
  sys_open k (length (opens n)) a (group opts) = SysErr err →
  let a_sw := attr_set_event a PERF_TYPE_SOFTWARE PERF_COUNT_SW_CPU_CLOCK in
  match try_again opts k fuel a n with
  | None => False
  | Some (ok, a', n') =>
      if (err =? EPERM) || (err =? EACCES) then
        ok = false ∧ a' = a ∧ opens n' = opens n ++ [a]
      else if is_hw_cycles a then
        a' = a_sw ∧ same_settings a a_sw ∧
        opens n' = opens n ++ [a; a_sw] ∧
        ok = match sys_open k (S (length (opens n))) a_sw (group opts) with
             | SysOk => true
             | SysErr _ => false
             end
      else ok = false ∧ a' = a ∧ opens n' = opens n ++ [a]
  end ∧
  ∀ pre evsel post pre' n0 n1 a' n2,
    let nr := Z.of_nat (length (pre ++ evsel :: post)) in
    start_entries opts k fuel nr pre n0 = Some (true, pre', n1) →
    try_again opts k fuel (start_attr opts nr (attr evsel)) n1
    = Some (false, a', n2) →
    perf_evlist__start opts k fuel (pre ++ evsel :: post) n0
    = Some (-1, pre' ++ evsel_set_attr evsel a' :: post, n2).
Proof.
  intros Habi Hfuel Hopen a_sw. split.
  - destruct fuel as [|fuel]; [lia|].
    simpl. rewrite Hopen.
    destruct ((err =? EPERM) || (err =? EACCES)); [done|].
    destruct (is_hw_cycles a) eqn:Hcyc.
    + destruct fuel as [|fuel]; [lia|]. fold a_sw.
      rewrite try_again_second_pass
        by (try apply is_hw_cycles_after_fallback; exact Habi).
      rewrite opens_after_fallback_warning, length_app, Nat.add_1_r.
      simpl.
      destruct (sys_open k _ a_sw _) as [|err2].
      { repeat split; simpl;
          by rewrite ?opens_after_fallback_warning, <- ?app_assoc. }
      destruct ((err2 =? EPERM) || (err2 =? EACCES));
        [|destruct (err2 =? ENOENT)];
        repeat split; simpl;
        by rewrite ?opens_after_fallback_warning, <- ?app_assoc.
    + destruct (err =? ENOENT); done.
  - intros pre evsel post pre' n0 n1 a' n2 nr Hpre Htry.
    unfold perf_evlist__start. fold nr.
    by erewrite start_entries_abort.
Qed.

End FallbackClaims.

Lemma cycles_fallback_exactly_once_witness :
  match try_again (abi := linux_abi) default_options
          (kernel_first_fails (@ENOENT linux_abi)) 2 cycles_attr
          negotiation_start with
  | Some (ok, a', n') =>
      ok = true ∧ a' = cpu_clock_attr ∧
      opens n' = [cycles_attr; cpu_clock_attr]
  | None => False
  end.
Proof.
  pose proof (cycles_fallback_exactly_once (abi := linux_abi)
                default_options (kernel_first_fails (@ENOENT linux_abi))
                2 cycles_attr negotiation_start (@ENOENT linux_abi)
                ltac:(vm_compute; discriminate) ltac:(lia)
                ltac:(reflexivity)) as [H _].
  destruct (try_again _ _ _ _ _) as [[[ok a'] n']|]; [|done].
  simpl in H. destruct H as (-> & _ & -> & ->). done.
Defined.

(** The fallback is not reserved to the unsupported-event error: a cycles
    descriptor whose open fails with EINVAL is changed to the software
    cpu-clock and opened again all the same. *)
Lemma fallback_on_other_error_counterexample :
  @EINVAL linux_abi ≠ @ENOENT linux_abi ∧
  sys_open (kernel_first_fails (@EINVAL linux_abi)) 0 cycles_attr
           (group default_options)
  = SysErr (@EINVAL linux_abi) ∧
  cpu_clock_attr ≠ cycles_attr ∧
  try_again (abi := linux_abi) default_options
            (kernel_first_fails (@EINVAL linux_abi)) 2 cycles_attr
            negotiation_start
  = Some (true, cpu_clock_attr,
          {| opens := [cycles_attr; cpu_clock_attr]; warnings := [] |}).
Proof. repeat split; vm_compute; congruence. Qed.

(** An event the kernel does not know is fatal at once when it is not the
    cycle counter, and after the one fallback when it is. *)
Example unsupported_event_is_fatal :
  (λ r, (r.1.1, length (opens r.2)))
    <$> perf_evlist__start (abi := linux_abi) default_options
          (kernel_fails (@ENOENT linux_abi)) 2
          [evsel_new 1 3 1000; evsel_new 0 0 1000] negotiation_start
  = Some (-1, 1%nat) ∧
  (λ r, (r.1.1, length (opens r.2)))
    <$> perf_evlist__start (abi := linux_abi) default_options
          (kernel_fails (@ENOENT linux_abi)) 2
          [evsel_new 0 0 1000; evsel_new 1 3 1000] negotiation_start
  = Some (-1, 2%nat).
Proof. split; reflexivity. Qed.

(** ** Sampling rate *)

Lemma settle_rate_cases o o' :
  settle_rate o = Some o' →
  (default_interval o ≠ 0 ∧ freq o' = 0 ∧
   default_interval o' = default_interval o) ∨
  (default_interval o = 0 ∧ freq o ≠ 0 ∧ freq o' = freq o ∧
   default_interval o' = freq o).
Proof.
  unfold settle_rate. intros H.
  destruct (Z.eqb_spec (default_interval o) 0) as [Hd|Hd]; simpl in H.
  - destruct (Z.eqb_spec (freq o) 0) as [Hf|Hf]; simpl in H; [done|].
    inversion H; subst. right. by repeat split.
  - inversion H; subst. left. by repeat split.
Qed.

Lemma fill_sample_period_spec env o : ∀ evlist pos evlist1,
  fill_sample_period env o pos evlist = Some evlist1 →
  Forall2 (λ e0 e1,
             attr e1 = if negb (attr_sample_period (attr e0) =? 0)
                       then attr e0
                       else attr_set_sample_period (attr e0)
                              (to_u64 (default_interval o)))
          evlist evlist1.
Proof.
  induction evlist as [|e rest IH]; intros pos evlist1 H; simpl in H.
  - inversion H. constructor.
  - destruct (negb (alloc_fd_ok env pos)); [done|].
    destruct (fill_sample_period env o (S pos) rest) as [rest'|] eqn:Hrest;
      [|done].
    inversion H; subst. constructor; [|by eapply IH].
    by destruct (negb (attr_sample_period (attr e) =? 0)).
Qed.

Section RateClaims.
Context `{abi : perf_abi}.
Variable k : kernel.

(** C4, as the code has it.  Once [cmd_htop] has settled the rate and
    filled in the periods and [perf_evlist__start] has succeeded, every
    descriptor is in one mode, the one its frequency flag selects for its
    single rate field.  It is the count that decides, not the frequency: if
    no count was given and the frequency is not zero, every descriptor,
    with or without a period of its own, is in frequency mode and its rate
    is that frequency; if a count was given, whether or not a frequency was
    asked for as well, no descriptor has its frequency flag touched, a
    descriptor that had no period of its own has the count as its period and
    one that had a period keeps it. *)
Theorem one_rate_mode_per_descriptor
    (env : startup) (opts : options) (fuel : nat)
    (evlist0 evlist1 evlist2 : list perf_evsel) (n n' : negotiation) :
  settle_rate (parsed_options env) = Some opts →
  fill_sample_period env opts 0 evlist0 = Some evlist1 →
  perf_evlist__start opts k fuel evlist1 n = Some (0, evlist2, n') →
  ((default_interval (parsed_options env) = 0 ∧
    freq (parsed_options env) ≠ 0 ∧
    Forall (λ e, attr_freq (attr e) = true ∧
                 attr_sample_freq (attr e)
                 = to_u64 (freq (parsed_options env)))
           evlist2) ∨
   (default_interval (parsed_options env) ≠ 0 ∧
    Forall2 (λ e0 e2,
               attr_freq (attr e2) = attr_freq (attr e0) ∧
               attr_sample_period (attr e2)
               = if attr_sample_period (attr e0) =? 0
                 then to_u64 (default_interval (parsed_options env))
                 else attr_sample_period (attr e0))
            evlist0 evlist2)).
Proof.
  intros Hrate Hfill Hstart.
  apply fill_sample_period_spec in Hfill.
  unfold perf_evlist__start in Hstart.
  destruct (start_entries opts k fuel _ evlist1 n) as [[[ok l] m]|]
    eqn:Hloop; [|done].
  destruct ok; [|by inversion Hstart].
  destruct (sys_mmap k _); inversion Hstart; subst; clear Hstart.
  apply start_entries_ok in Hloop.
  pose proof (Forall2_trans _ _ (λ e0 e2, ∃ e1, _ e0 e1 ∧ _ e1 e2)
                _ _ _ (λ x y z Hxy Hyz, ex_intro _ y (conj Hxy Hyz))
                Hfill Hloop) as Hall.
  clear Hfill Hloop.
  destruct (settle_rate_cases _ _ Hrate)
    as [(Hd & Hf & Hd') | (Hd & Hf & Hf' & Hd')].
  - right. split; [done|].
    apply Forall2_same_length_lookup_2; [by eapply Forall2_length|].
    intros i e0 e2 Hi0 Hi2.
    destruct (Forall2_lookup_lr _ _ _ _ _ _ Hall Hi0 Hi2)
      as (e1 & Hattr & _ & Hper & Hfreq & _).
    rewrite Hper, Hfreq, start_attr_sample_period, start_attr_freq.
    rewrite Hf, Hattr, Hd'. simpl.
    by destruct (attr_sample_period (attr e0) =? 0).
  - left. repeat split; [done..|].
    apply Forall_lookup. intros i e2 Hi.
    destruct (Forall2_lookup_r _ _ _ _ _ Hall Hi)
      as (e0 & _ & e1 & _ & _ & Hper & Hfreq & _).
    unfold attr_sample_freq.
    rewrite Hper, Hfreq, start_attr_sample_period, start_attr_freq.
    rewrite Hf'.
    destruct (Z.eqb_spec (freq (parsed_options env)) 0); [done|].
    done.
Qed.

End RateClaims.

Lemma one_rate_mode_per_descriptor_witness :
  match perf_evlist__start (abi := linux_abi)
          (options_set_rate count_and_freq_options 7 0) kernel_ok 2
          [evsel_new 0 0 3;
           evsel_set_attr (evsel_new 1 0 0)
             (attr_set_sample_period (attr (evsel_new 1 0 0)) 7)]
          negotiation_start with
  | Some (_, evlist2, _) =>
      (λ e, (attr_freq (attr e), attr_sample_period (attr e))) <$> evlist2
      = [(false, 3); (false, 7)]
  | None => False
  end.
Proof.
  destruct (perf_evlist__start _ _ _ _ _) as [[[ret evlist2] n']|] eqn:Hrun.
  - assert (ret = 0) as -> by (vm_compute in Hrun; congruence).
    destruct (one_rate_mode_per_descriptor (abi := linux_abi) kernel_ok
                (startup_ok count_and_freq_options [])
                (options_set_rate count_and_freq_options 7 0)
                2 [evsel_new 0 0 3; evsel_new 1 0 0]
                [evsel_new 0 0 3;
                 evsel_set_attr (evsel_new 1 0 0)
                   (attr_set_sample_period (attr (evsel_new 1 0 0)) 7)]
                evlist2 negotiation_start n'
                ltac:(reflexivity) ltac:(reflexivity) Hrun)
      as [(Hcount & _) | (_ & Hall)].
    + by contradict Hcount.
    + apply Forall2_cons_inv_l in Hall
        as (e & rest & (Hf & Hp) & Hall & ->).
      apply Forall2_cons_inv_l in Hall
        as (e' & rest' & (Hf' & Hp') & Hall & ->).
      apply Forall2_nil_inv_l in Hall as ->.
      simpl. by rewrite Hf, Hp, Hf', Hp'.
  - vm_compute in Hrun. discriminate.
Defined.

(** [perf htop -c 7 -F 50] asks for a sampling frequency of 50 Hz, and the
    descriptor the command opens, which has no period of its own, is in
    fixed-period mode all the same, with the count as its period: the count
    overrides the frequency. *)
Lemma count_overrides_frequency_counterexample :
  freq count_and_freq_options = 50 ∧
  attr_sample_period (attr (evsel_new 0 0 0)) = 0 ∧
  (λ r, (run_outcome r,
         (λ a, (attr_freq a, attr_sample_period a)) <$> run_opens r))
    <$> cmd_htop (abi := linux_abi) id2evsel_from_10 kernel_ok 2
          (startup_ok count_and_freq_options [evsel_new 0 0 0]) []
  = Some (Sampling, [(false, 7)]).
Proof. repeat split. Qed.

(** ** The command's configuration check *)

(** The goals a run that stops before [__cmd_top] leaves. *)
Ltac stopped_run :=
  eexists; split; [reflexivity|]; split; [reflexivity|];
  split; [reflexivity|]; split.
Ltac negative_status := right; eexists; split; [reflexivity | lia].

Section CommandClaims.
Context `{abi : perf_abi}.
Variable perf_evlist__id2evsel : list perf_evsel → Z → option nat.
Variable k : kernel.

(** C6.  With a zero frequency and no count, [cmd_htop] ends in failure
    without a single descriptor open: through the usage exit or with a
    negative status, and, when the steps before the check succeed, with
    [-EINVAL] and the message of the check. *)
Theorem zero_rate_rejected_before_open
    (fuel : nat) (env : startup) (its : list iteration) :
  abi_errno_positive →
  default_interval (parsed_options env) = 0 →
  freq (parsed_options env) = 0 →
  ∃ r,
    cmd_htop perf_evlist__id2evsel k fuel env its = Some r ∧
    run_opens r = [] ∧
    run_polls r = [] ∧
    (run_outcome r = UsageExit ∨
     ∃ status, run_outcome r = Returned status ∧ status < 0) ∧
    (evlist_new_ok env = true →
     argc_left env = 0 →
     create_maps_ok env = true →
     (parsed_events env = [] → add_default_ok env = true) →
     run_outcome r = Returned (- EINVAL) ∧
     run_console r = [PrErr "frequency and count are zero, aborting"]).
Proof.
  intros [Hnomem Hinval] Hcount Hfreq. unfold cmd_htop.
  assert (settle_rate (parsed_options env) = None) as Hrate.
  { unfold settle_rate. by rewrite Hcount, Hfreq. }
  destruct (evlist_new_ok env); simpl.
  2: { stopped_run; [negative_status | done]. }
  destruct (Z.eqb_spec (argc_left env) 0) as [Hargc|Hargc]; simpl.
  2: { stopped_run; [by left | done]. }
  destruct (create_maps_ok env); simpl.
  2: { stopped_run; [by left | done]. }
  destruct (parsed_events env) as [|e events] eqn:Hevents; simpl.
  - destruct (add_default_ok env); simpl.
    + rewrite Hrate. stopped_run; [negative_status | done].
    + stopped_run; [negative_status|].
      intros _ _ _ Hdefault. by specialize (Hdefault eq_refl).
  - rewrite Hrate. stopped_run; [negative_status | done].
Qed.

End CommandClaims.

Lemma zero_rate_rejected_before_open_witness :
  ∃ r,
    cmd_htop (abi := linux_abi) id2evsel_from_10 kernel_ok 2
             (startup_ok zero_rate_options []) [] = Some r ∧
    run_opens r = [] ∧
    run_outcome r = Returned (- @EINVAL linux_abi).
Proof.
  destruct (zero_rate_rejected_before_open (abi := linux_abi)
              id2evsel_from_10 kernel_ok 2
              (startup_ok zero_rate_options []) []
              ltac:(vm_compute; split; reflexivity)
              ltac:(reflexivity) ltac:(reflexivity))
    as (r & Hrun & Hopens & _ & _ & Hfull).
  exists r. destruct Hfull as [Hout _]; [reflexivity..|].
  by repeat split.
Defined.

(** With the defaults and a kernel that grants everything the command opens
    the cycle counter and goes on sampling. *)
Example default_run_opens_cycles :
  (λ r, (run_outcome r, run_opens r, run_polls r))
    <$> cmd_htop (abi := linux_abi) id2evsel_from_10 kernel_ok 2
          (startup_ok default_options []) []
  = Some (Sampling, [cycles_attr], [100]).
Proof. reflexivity. Qed.

(** Without a PMU the open of the cycle counter fails with ENOENT and the
    command samples the software cpu-clock instead. *)
Example no_pmu_run_falls_back :
  (λ r, (run_outcome r, run_opens r))
    <$> cmd_htop (abi := linux_abi) id2evsel_from_10
          (kernel_first_fails (@ENOENT linux_abi)) 2
          (startup_ok default_options []) []
  = Some (Sampling, [cycles_attr; cpu_clock_attr]).
Proof. reflexivity. Qed.

(** With a count the command opens the descriptor in fixed-period mode. *)
Example count_run_fixed_period :
  (λ r, (λ a, (attr_freq a, attr_sample_period a)) <$> run_opens r)
    <$> cmd_htop (abi := linux_abi) id2evsel_from_10 kernel_ok 2
          (startup_ok count_options []) []
  = Some [(false, 5000)].
Proof. reflexivity. Qed.

(** ** The sampling loop *)

Section LoopClaims.
Context `{abi : perf_abi}.
Variable id2evsel : list perf_evsel → Z → option nat.

Lemma sampling_turn_spec it session polls :
  sampling_turn id2evsel it session polls
  = (turn_idle id2evsel it session && (it_poll it <? 0),
     perf_evlist__mmap_process_events id2evsel (it_buffers it) session,
     polls ++ (if turn_idle id2evsel it session then [100] else [])).
Proof.
  unfold sampling_turn, turn_idle, session_total, hists_total.
  destruct (_ =? _); simpl; [done|by rewrite app_nil_r].
Qed.

Lemma sampling_loop_cons it its session polls :
  sampling_loop id2evsel (it :: its) session polls
  = if turn_idle id2evsel it session && (it_poll it <? 0)
    then sampling_turn id2evsel it session polls
    else sampling_loop id2evsel its
           (perf_evlist__mmap_process_events id2evsel (it_buffers it) session)
           (polls ++ (if turn_idle id2evsel it session then [100] else [])).
Proof.
  simpl. rewrite sampling_turn_spec.
  by destruct (turn_idle id2evsel it session && (it_poll it <? 0)).
Qed.


Lemma turns_drained_cons it its session :
  turns_drained id2evsel (it :: its) session
  = turns_drained id2evsel its
      (perf_evlist__mmap_process_events id2evsel (it_buffers it) session).
Proof. reflexivity. Qed.

Lemma turn_waits_0 it its session :
  turn_waits id2evsel (it :: its) session 0 = turn_idle id2evsel it session.
Proof. reflexivity. Qed.

Lemma turn_waits_S it its session i :
  turn_waits id2evsel (it :: its) session (S i)
  = turn_waits id2evsel its
      (perf_evlist__mmap_process_events id2evsel (it_buffers it) session) i.
Proof. reflexivity. Qed.

Lemma wait_fails_0 it its session :
  wait_fails id2evsel (it :: its) session 0
  = turn_idle id2evsel it session && (it_poll it <? 0).
Proof. reflexivity. Qed.

Lemma wait_fails_S it its session i :
  wait_fails id2evsel (it :: its) session (S i)
  = wait_fails id2evsel its
      (perf_evlist__mmap_process_events id2evsel (it_buffers it) session) i.
Proof. reflexivity. Qed.

Lemma filter_seq_S (f : nat → bool) len : ∀ start,
  List.filter f (seq (S start) len)
  = S <$> List.filter (λ i, f (S i)) (seq start len).
Proof.
  induction len as [|len IH]; intros start; [done|].
  simpl. rewrite IH. by destruct (f (S start)).
Qed.

Lemma turns_waits_cons it its session :
  turns_waits id2evsel (it :: its) session
  = (if turn_idle id2evsel it session then [100] else [])
    ++ turns_waits id2evsel its
         (perf_evlist__mmap_process_events id2evsel (it_buffers it) session).
Proof.
  unfold turns_waits. simpl length. simpl seq.
  cbn [List.filter]. rewrite turn_waits_0, filter_seq_S.
  assert ((λ _ : nat, 100) <$>
            (S <$> List.filter
                     (λ i, turn_waits id2evsel (it :: its) session (S i))
                     (seq 0 (length its)))
          = (λ _ : nat, 100) <$>
              List.filter
                (turn_waits id2evsel its
                   (perf_evlist__mmap_process_events id2evsel (it_buffers it)
                      session))
                (seq 0 (length its))) as Hrest.
  { rewrite <- list_fmap_compose. done. }
  destruct (turn_idle id2evsel it session);
    [rewrite fmap_cons|]; by rewrite Hrest.
Qed.

(** C9.  The loop as a function of what each turn finds in the buffers and
    of what its wait would return.  Every turn drains all its buffers, on
    top of what the turns before it drained, and waits, for 100 ms, exactly
    when that left the session's [total_period] unchanged.  If no such wait
    returns an error the loop is still running after all the turns, however
    many.  If one does, the loop is left at the first turn at which it
    happens, after that turn's drain and with that wait as its last. *)
Theorem sampling_loop_exits_on_wait_error
    (its : list iteration) (session : perf_session) (polls : list Z) :
  ((∀ i, wait_fails id2evsel its session i = false) →
   sampling_loop id2evsel its session polls
   = (false,
      turns_drained id2evsel its session,
      polls ++ turns_waits id2evsel its session)) ∧
  (∀ i, wait_fails id2evsel its session i = true →
        (∀ j, (j < i)%nat → wait_fails id2evsel its session j = false) →
        sampling_loop id2evsel its session polls
        = (true,
           turns_drained id2evsel (take (S i) its) session,
           polls ++ turns_waits id2evsel (take (S i) its) session)).
Proof.
  revert session polls.
  induction its as [|it its IH]; intros session polls.
  { split.
    - intros _. simpl. by rewrite app_nil_r.
    - intros i Hi. by destruct i. }
  destruct (IH (perf_evlist__mmap_process_events id2evsel (it_buffers it)
                  session)
               (polls ++ (if turn_idle id2evsel it session
                          then [100] else []))) as [IHrun IHstop].
  rewrite sampling_loop_cons, sampling_turn_spec. split.
  - intros Hnone.
    pose proof (Hnone 0%nat) as H0. rewrite wait_fails_0 in H0.
    rewrite H0, IHrun.
    + by rewrite turns_drained_cons, turns_waits_cons, app_assoc.
    + intros i. rewrite <- wait_fails_S. apply Hnone.
  - intros [|i] Hi Hfirst.
    + rewrite wait_fails_0 in Hi. rewrite Hi.
      apply andb_true_iff in Hi as [Hidle _].
      rewrite Hidle. simpl take. rewrite take_0.
      rewrite turns_drained_cons, turns_waits_cons, Hidle. simpl.
      done.
    + pose proof (Hfirst 0%nat ltac:(lia)) as H0.
      rewrite wait_fails_0 in H0. rewrite H0.
      rewrite wait_fails_S in Hi.
      rewrite (IHstop i Hi).
      * simpl take.
        by rewrite turns_drained_cons, turns_waits_cons, app_assoc.
      * intros j Hj. rewrite <- wait_fails_S. apply Hfirst. lia.
Qed.

End LoopClaims.

Lemma sampling_loop_exits_on_wait_error_witness :
  sampling_loop (abi := linux_abi) id2evsel_from_10
                [busy_turn; no_memory_turn; quiet_turn]
                (session_new [evsel_new 0 0 1000]) []
  = (false,
     turns_drained (abi := linux_abi) id2evsel_from_10
                   [busy_turn; no_memory_turn; quiet_turn]
                   (session_new [evsel_new 0 0 1000]),
     [100]) ∧
  sampling_loop (abi := linux_abi) id2evsel_from_10
                [busy_turn; quiet_turn; failing_turn; busy_turn]
                (session_new [evsel_new 0 0 1000]) []
  = (true,
     turns_drained (abi := linux_abi) id2evsel_from_10
                   [busy_turn; quiet_turn; failing_turn]
                   (session_new [evsel_new 0 0 1000]),
     [100; 100]).
Proof.
  split.
  - apply (proj1 (sampling_loop_exits_on_wait_error (abi := linux_abi)
                    id2evsel_from_10
                    [busy_turn; no_memory_turn; quiet_turn]
                    (session_new [evsel_new 0 0 1000]) [])).
    intros i. do 3 (destruct i as [|i]; [reflexivity|]). reflexivity.
  - apply (proj2 (sampling_loop_exits_on_wait_error (abi := linux_abi)
                    id2evsel_from_10
                    [busy_turn; quiet_turn; failing_turn; busy_turn]
                    (session_new [evsel_new 0 0 1000]) []) 2%nat).
    + reflexivity.
    + intros j Hj. do 2 (destruct j as [|j]; [reflexivity|]). lia.
Defined.

(** ** Accumulation of weights *)

Lemma hists_accumulate_None k p l :
  hists_accumulate k p l = None ↔ entries_weight l k = None.
Proof.
  induction l as [|he l IH]; simpl; [done|].
  destruct (decide (he_key he = k)); [done|].
  destruct (hists_accumulate k p l); [|tauto].
  split; [done|]. intros H. apply IH in H. done.
Qed.

Lemma hists_accumulate_weight k p l l' k' :
  hists_accumulate k p l = Some l' →
  entries_weight l' k'
  = if decide (k = k') then accumulate_weight (entries_weight l k') p
    else entries_weight l k'.
Proof.
  revert l'. induction l as [|he l IH]; intros l' H; simpl in H; [done|].
  destruct (decide (he_key he = k)) as [Hk|Hk].
  - inversion H; subst. simpl.
    repeat case_decide; (done || congruence).
  - destruct (hists_accumulate k p l) as [l''|]; [|done].
    inversion H; subst. simpl.
    specialize (IH _ eq_refl).
    repeat case_decide; (done || congruence).
Qed.

Lemma entries_weight_app l he k :
  entries_weight (l ++ [he]) k
  = match entries_weight l k with
    | Some w => Some w
    | None => if decide (he_key he = k) then Some (he_period he) else None
    end.
Proof.
  induction l as [|x l IH]; simpl; [done|].
  by destruct (decide (he_key x = k)).
Qed.

(** The weight under every key after an insert-or-accumulate that finds
    the memory it needs. *)
Lemma add_entry_weight h al p k :
  ∃ h', __hists__add_entry h al p true = Some h' ∧
        stats h' = stats h ∧
        hists_weight h' k
        = if decide (hist_key_of al = k)
          then accumulate_weight (hists_weight h k) p
          else hists_weight h k.
Proof.
  unfold __hists__add_entry, hists_weight.
  destruct (hists_accumulate (hist_key_of al) p (entries h)) as [l|] eqn:Hacc.
  - eexists. split; [done|]. split; [done|]. simpl.
    by eapply hists_accumulate_weight.
  - eexists. split; [done|]. split; [done|]. simpl.
    apply hists_accumulate_None in Hacc.
    rewrite entries_weight_app. simpl.
    destruct (decide (hist_key_of al = k)) as [<-|Hk].
    + by rewrite Hacc.
    + by destruct (entries_weight (entries h) k).
Qed.

Lemma accumulate_weights_sum ps : ∀ w,
  foldl accumulate_weight (Some w) ps = Some (w + sum_periods ps).
Proof.
  induction ps as [|p ps IH]; intros w; simpl.
  - by rewrite Z.add_0_r.
  - change (foldl accumulate_weight (Some (w + p)) ps
            = Some (w + sum_periods (p :: ps))).
    rewrite IH. f_equal. unfold sum_periods. simpl. lia.
Qed.

Lemma accumulate_weights_fresh ps :
  ps ≠ [] → foldl accumulate_weight None ps = Some (sum_periods ps).
Proof.
  destruct ps as [|p ps]; [done|]. intros _. simpl.
  change (accumulate_weight None p) with (Some p).
  by rewrite accumulate_weights_sum.
Qed.

Lemma key_periods_cons k s samples :
  key_periods k (s :: samples)
  = if decide (hist_key_of s.1 = k)
    then sample_period s.2 :: key_periods k samples
    else key_periods k samples.
Proof.
  unfold key_periods. rewrite filter_cons.
  by destruct (decide (hist_key_of s.1 = k)).
Qed.

Lemma key_periods_perm k samples samples' :
  samples ≡ₚ samples' → key_periods k samples ≡ₚ key_periods k samples'.
Proof. intros H. unfold key_periods. by rewrite H. Qed.

Section Accumulation.
Context `{abi : perf_abi}.

(** [perf_session__add_hist_entry] when memory is at hand: it succeeds, the
    entry of the sample's key gains the period and so do both totals. *)
Lemma add_hist_entry_ok session al sample evsel :
  ∃ session' evsel',
    perf_session__add_hist_entry session al sample true evsel
    = (0, session', evsel') ∧
    (∀ k, hists_weight (evsel_hists evsel') k
          = if decide (hist_key_of al = k)
            then accumulate_weight (hists_weight (evsel_hists evsel) k)
                                   (sample_period sample)
            else hists_weight (evsel_hists evsel) k) ∧
    evsel_total evsel' = u64_add (evsel_total evsel) (sample_period sample) ∧
    session_total session'
    = u64_add (session_total session) (sample_period sample).
Proof.
  unfold perf_session__add_hist_entry.
  destruct (add_entry_weight (evsel_hists evsel) al (sample_period sample)
              (hist_key_of al)) as (h' & Hadd & Hstats & _).
  rewrite Hadd. eexists _, _. split; [done|]. split; [|split].
  - intros k.
    destruct (add_entry_weight (evsel_hists evsel) al (sample_period sample) k)
      as (h'' & Hadd' & _ & Hw).
    rewrite Hadd in Hadd'. inversion Hadd'; subst h''. exact Hw.
  - unfold evsel_total, hists_total. simpl. by rewrite Hstats.
  - done.
Qed.

Lemma add_samples_cons s samples session evsel :
  add_samples (s :: samples) session evsel
  = add_samples samples
      (perf_session__add_hist_entry session s.1 s.2 true evsel).1.2
      (perf_session__add_hist_entry session s.1 s.2 true evsel).2.
Proof.
  unfold add_samples. simpl.
  by destruct (perf_session__add_hist_entry _ _ _ _ _) as [[ret s'] e'].
Qed.

Lemma add_samples_weight k samples : ∀ session evsel,
  hists_weight (evsel_hists (add_samples samples session evsel).2) k
  = foldl accumulate_weight (hists_weight (evsel_hists evsel) k)
          (key_periods k samples).
Proof.
  induction samples as [|s samples IH]; intros session evsel; [done|].
  rewrite add_samples_cons, IH, key_periods_cons.
  destruct (add_hist_entry_ok session s.1 s.2 evsel)
    as (session' & evsel' & -> & Hw & _).
  simpl. rewrite Hw.
  by destruct (decide (hist_key_of s.1 = k)).
Qed.

(** C8.  Feed any sequence of samples through
    [perf_session__add_hist_entry] to one table, memory at hand.  If the
    table has no entry for key [k] yet and some sample falls under [k], the
    entry of [k] ends with the sum of the periods of the samples under [k],
    whatever other keys come in between; if it has one already, that entry
    gains this sum; and every permutation of the sequence ends with the same
    weight under [k]. *)
Theorem weight_is_sum_of_periods
    (samples samples' : list (addr_location * perf_sample)) (k : hist_key)
    (session : perf_session) (evsel : perf_evsel) :
  (hists_weight (evsel_hists evsel) k = None →
   key_periods k samples ≠ [] →
   hists_weight (evsel_hists (add_samples samples session evsel).2) k
   = Some (sum_periods (key_periods k samples))) ∧
  (∀ w, hists_weight (evsel_hists evsel) k = Some w →
        hists_weight (evsel_hists (add_samples samples session evsel).2) k
        = Some (w + sum_periods (key_periods k samples))) ∧
  (samples ≡ₚ samples' →
   hists_weight (evsel_hists (add_samples samples' session evsel).2) k
   = hists_weight (evsel_hists (add_samples samples session evsel).2) k).
Proof.
  split; [|split].
  - intros Hfresh Hsome.
    by rewrite add_samples_weight, Hfresh, accumulate_weights_fresh.
  - intros w Hw. by rewrite add_samples_weight, Hw, accumulate_weights_sum.
  - intros Hperm. rewrite !add_samples_weight.
    pose proof (key_periods_perm k _ _ Hperm) as Hkeys.
    destruct (hists_weight (evsel_hists evsel) k) as [w|].
    + rewrite !accumulate_weights_sum. f_equal. f_equal. symmetry.
      by apply sum_periods_perm.
    + destruct (key_periods k samples) as [|p ps] eqn:Hps.
      * apply Permutation_nil_l in Hkeys. by rewrite Hkeys.
      * assert (key_periods k samples' ≠ []) as Hne.
        { intros Hnil. rewrite Hnil in Hkeys.
          by apply Permutation_nil_r in Hkeys. }
        rewrite !accumulate_weights_fresh by done.
        f_equal. symmetry. by apply sum_periods_perm.
Qed.

End Accumulation.

Lemma weight_is_sum_of_periods_witness :
  let samples := [located_sample "schedule" 10; located_sample "memcpy" 5;
                  located_sample "schedule" 7] in
  let samples' := [located_sample "schedule" 7; located_sample "schedule" 10;
                   located_sample "memcpy" 5] in
  hists_weight
    (evsel_hists
       (add_samples (abi := linux_abi) samples (session_new [])
                    (evsel_new 0 0 1000)).2)
    (kernel_key "schedule")
  = Some 17 ∧
  hists_weight
    (evsel_hists
       (add_samples (abi := linux_abi) samples' (session_new [])
                    (evsel_new 0 0 1000)).2)
    (kernel_key "schedule")
  = Some 17.
Proof.
  intros samples samples'.
  destruct (weight_is_sum_of_periods (abi := linux_abi)
              samples samples'
              (kernel_key "schedule") (session_new []) (evsel_new 0 0 1000))
    as (Hsum & _ & Hperm).
  assert (samples ≡ₚ samples') as Hp.
  { unfold samples, samples'.
    etrans; [|apply Permutation_swap].
    apply Permutation_skip. apply Permutation_swap. }
  rewrite (Hperm Hp).
  split; apply Hsum; (reflexivity || (vm_compute; discriminate)).
Defined.

(** ** The totals *)

Lemma foldl_u64_add_sum ps : ∀ t,
  is_u64 t → foldl u64_add t ps = to_u64 (t + sum_periods ps).
Proof.
  induction ps as [|p ps IH]; intros t Ht; simpl.
  - by rewrite Z.add_0_r, to_u64_small.
  - rewrite IH by apply to_u64_range.
    unfold u64_add, to_u64. rewrite Zplus_mod_idemp_l.
    f_equal. unfold sum_periods. simpl. lia.
Qed.

Lemma add_entry_stats h al p can_alloc h' :
  __hists__add_entry h al p can_alloc = Some h' → stats h' = stats h.
Proof.
  unfold __hists__add_entry. intros H.
  destruct (hists_accumulate _ _ _); [by inversion H|].
  destruct can_alloc; by inversion H.
Qed.

Section Totals.
Context `{abi : perf_abi}.
Variable id2evsel : list perf_evsel → Z → option nat.
Hypothesis errno_positive : abi_errno_positive.

(** [perf_session__add_hist_entry] either adds the period to both totals
    and returns 0, or returns [-ENOMEM] and changes nothing. *)
Lemma add_hist_entry_cases session al sample can_alloc evsel :
  (∃ session' evsel',
     perf_session__add_hist_entry session al sample can_alloc evsel
     = (0, session', evsel') ∧
     evsel_total evsel' = u64_add (evsel_total evsel) (sample_period sample) ∧
     session_total session'
     = u64_add (session_total session) (sample_period sample) ∧
     session_evlist session' = session_evlist session) ∨
  perf_session__add_hist_entry session al sample can_alloc evsel
  = (- ENOMEM, session, evsel).
Proof.
  unfold perf_session__add_hist_entry.
  destruct (__hists__add_entry _ _ _ _) as [h|] eqn:Hadd; [|by right].
  left. eexists _, _. split; [done|].
  apply add_entry_stats in Hadd.
  unfold evsel_total, session_total, hists_total. simpl.
  by rewrite Hadd.
Qed.

(** What [perf_event__process_sample] does to the two totals. *)
Lemma process_sample_totals event sample evsel session :
  ∃ ret session' evsel',
    perf_event__process_sample event sample evsel session
    = (ret, session', evsel') ∧
    session_evlist session' = session_evlist session ∧
    if (ret =? 0) && negb (sample_ignored event)
    then evsel_total evsel'
         = u64_add (evsel_total evsel) (sample_period sample) ∧
         session_total session'
         = u64_add (session_total session) (sample_period sample)
    else evsel_total evsel' = evsel_total evsel ∧
         session_total session' = session_total session.
Proof.
  unfold perf_event__process_sample, sample_ignored.
  destruct (perf_event__preprocess_sample event symbol_filter) as [al|].
  2: { eexists _, _, _. by repeat split. }
  destruct (al_ignored al).
  { eexists _, _, _. by repeat split. }
  destruct (add_hist_entry_cases session al sample (alloc_ok event) evsel)
    as [(s' & e' & -> & He & Hs & Hl) | ->].
  - eexists _, _, _. by repeat split.
  - destruct errno_positive as [Hnomem _].
    assert ((- ENOMEM =? 0) = false) as -> by (apply Z.eqb_neq; lia).
    eexists _, _, _. by repeat split.
Qed.

Lemma process_event_totals event session :
  session_total (process_event id2evsel event session)
  = match aggregated id2evsel event session with
    | Some (_, p) => u64_add (session_total session) p
    | None => session_total session
    end ∧
  ∀ i, table_total (process_event id2evsel event session) i
       = match aggregated id2evsel event session with
         | Some (j, p) =>
             if decide (i = j)
             then (λ t, u64_add t p) <$> table_total session i
             else table_total session i
         | None => table_total session i
         end.
Proof.
  unfold process_event, aggregated, routed_to.
  destruct (negb (parse_ret event =? 0)); [done|].
  destruct (header_type event =? PERF_RECORD_SAMPLE); [|done].
  destruct (id2evsel _ _) as [j|]; [|done].
  destruct (session_evlist session !! j) as [evsel|] eqn:Hj; [|done].
  destruct (process_sample_totals event (parsed event) evsel session)
    as (ret & s' & e' & -> & Hl & Htot).
  unfold table_total. simpl. rewrite Hl.
  destruct ((ret =? 0) && negb (sample_ignored event));
    destruct Htot as [He Hs]; (split; [done|]); intros i.
  - destruct (decide (i = j)) as [->|Hij].
    + rewrite list_lookup_insert_eq by (by eapply lookup_lt_Some).
      rewrite Hj. simpl. by rewrite He.
    + by rewrite list_lookup_insert_ne.
  - destruct (decide (i = j)) as [->|Hij].
    + rewrite list_lookup_insert_eq by (by eapply lookup_lt_Some).
      rewrite Hj. simpl. by rewrite He.
    + by rewrite list_lookup_insert_ne.
Qed.

Lemma aggregated_period event session i p :
  aggregated id2evsel event session = Some (i, p) →
  p = sample_period (parsed event).
Proof.
  unfold aggregated.
  destruct (routed_to id2evsel event session) as [[j evsel]|]; [|done].
  destruct (perf_event__process_sample _ _ _ _) as [[ret s'] e'].
  destruct ((ret =? 0) && negb (sample_ignored event)); [|done].
  by inversion 1.
Qed.

Lemma periods_into_u64 i records :
  Forall (λ e, is_u64 (sample_period (parsed e))) records →
  ∀ session, Forall is_u64 (periods_into id2evsel i records session).
Proof.
  induction 1 as [|e records He _ IH]; intros session; simpl; [done|].
  destruct (aggregated id2evsel e session) as [[j p]|] eqn:Hagg; [|done].
  apply aggregated_period in Hagg as ->.
  destruct (decide (i = j)); [by constructor | done].
Qed.

Lemma periods_aggregated_u64 records :
  Forall (λ e, is_u64 (sample_period (parsed e))) records →
  ∀ session, Forall is_u64 (periods_aggregated id2evsel records session).
Proof.
  induction 1 as [|e records He _ IH]; intros session; simpl; [done|].
  destruct (aggregated id2evsel e session) as [[j p]|] eqn:Hagg; [|done].
  apply aggregated_period in Hagg as ->. by constructor.
Qed.

(** The totals after a buffer is drained: every aggregated record has added
    its period, in [u64] arithmetic. *)
Lemma drain_totals records : ∀ session,
  session_total (perf_evlist__mmap_process_events_idx id2evsel records session)
  = foldl u64_add (session_total session)
          (periods_aggregated id2evsel records session) ∧
  ∀ i, table_total
         (perf_evlist__mmap_process_events_idx id2evsel records session) i
       = (λ t, foldl u64_add t (periods_into id2evsel i records session))
         <$> table_total session i.
Proof.
  induction records as [|e records IH]; intros session.
  - split; [done|]. intros i. simpl. by destruct (table_total session i).
  - destruct (IH (process_event id2evsel e session)) as [IHs IHt].
    destruct (process_event_totals e session) as [Hs Ht].
    change (perf_evlist__mmap_process_events_idx id2evsel (e :: records)
              session)
      with (perf_evlist__mmap_process_events_idx id2evsel records
              (process_event id2evsel e session)).
    split.
    + rewrite IHs, Hs. simpl.
      by destruct (aggregated id2evsel e session) as [[j p]|].
    + intros i. rewrite IHt, Ht. simpl.
      destruct (aggregated id2evsel e session) as [[j p]|]; [|done].
      destruct (decide (i = j)); [|done].
      by destruct (table_total session i).
Qed.

(** C2, as the code has it.  Drain any records, with periods that are [u64]
    values, into a session.  The session's [total_period], and that of the
    table of every descriptor, end at their old value plus the sum of the
    periods of the records aggregated (into that table), reduced modulo
    2^64.  While that sum stays at most 2^64 - 1 the total is the sum
    itself and has not decreased.  A record whose symbol is ignorable changes
    no table, and collapsing and re-sorting the tables for display changes
    no [total_period]. *)
Theorem total_period_is_sum_mod_u64
    (records : list perf_event) (session : perf_session) :
  is_u64 (session_total session) →
  Forall (λ evsel, is_u64 (evsel_total evsel)) (session_evlist session) →
  Forall (λ e, is_u64 (sample_period (parsed e))) records →
  let session' :=
    perf_evlist__mmap_process_events_idx id2evsel records session in
  let all := sum_periods (periods_aggregated id2evsel records session) in
  let into i := sum_periods (periods_into id2evsel i records session) in
  session_total session' = to_u64 (session_total session + all) ∧
  (session_total session + all ≤ u64_max →
   session_total session' = session_total session + all ∧
   session_total session ≤ session_total session') ∧
  (∀ i evsel,
     session_evlist session !! i = Some evsel →
     ∃ evsel',
       session_evlist session' !! i = Some evsel' ∧
       evsel_total evsel' = to_u64 (evsel_total evsel + into i) ∧
       (evsel_total evsel + into i ≤ u64_max →
        evsel_total evsel' = evsel_total evsel + into i ∧
        evsel_total evsel ≤ evsel_total evsel')) ∧
  (∀ e s,
     sample_ignored e = true →
     session_hists (process_event id2evsel e s) = session_hists s ∧
     session_evlist (process_event id2evsel e s) = session_evlist s) ∧
  (∀ policy evlist,
     Forall2 (λ evsel evsel', evsel_total evsel' = evsel_total evsel)
             evlist (perf_evlist__fprintf_hists policy evlist).2).
Proof.
  intros Hs Hl Hr session' all into.
  destruct (drain_totals records session) as [Htot Htab].
  fold session' in Htot, Htab.
  assert (0 ≤ all) as Hall
    by (by apply sum_periods_nonneg, periods_aggregated_u64).
  split; [|split; [|split; [|split]]].
  - rewrite Htot. by apply foldl_u64_add_sum.
  - intros Hfits. rewrite Htot, foldl_u64_add_sum by done.
    rewrite to_u64_small by (unfold is_u64 in *; lia). lia.
  - intros i evsel Hi.
    specialize (Htab i). unfold table_total in Htab.
    rewrite Hi in Htab. simpl in Htab.
    destruct (session_evlist session' !! i) as [evsel'|]; [|done].
    inversion Htab as [Heq]. clear Htab.
    pose proof (Forall_lookup_1 _ _ _ _ Hl Hi) as He. simpl in He.
    assert (0 ≤ into i) as Hinto
      by (by apply sum_periods_nonneg, periods_into_u64).
    exists evsel'. split; [done|].
    rewrite Heq, foldl_u64_add_sum by done. split; [done|].
    intros Hfits.
    rewrite to_u64_small by (unfold is_u64 in *; fold (into i); lia).
    fold (into i). lia.
  - intros e s. apply process_event_ignored.
  - intros policy evlist. simpl.
    induction evlist as [|evsel evlist IH]; by constructor.
Qed.

End Totals.

Lemma total_period_is_sum_mod_u64_witness :
  let session := session_new [evsel_new 0 0 1000; evsel_new 1 0 1000] in
  let records := [sample_event 10 "schedule" 10; sample_event 11 "memcpy" 5;
                  sample_event 10 "mwait_idle" 100;
                  sample_event 10 "schedule" 7] in
  let session' :=
    perf_evlist__mmap_process_events_idx (abi := linux_abi) id2evsel_from_10
                                         records session in
  session_total session' = 22 ∧
  table_total session' 0 = Some 17 ∧
  table_total session' 1 = Some 5.
Proof.
  intros session records session'.
  destruct (total_period_is_sum_mod_u64 (abi := linux_abi) id2evsel_from_10
              ltac:(vm_compute; split; reflexivity)
              records session
              ltac:(vm_compute; split; discriminate)
              ltac:(repeat constructor; vm_compute; discriminate)
              ltac:(repeat constructor; vm_compute; discriminate))
    as (_ & Hsession & Htables & _ & _).
  fold session' in Hsession, Htables.
  split; [|split].
  - apply Hsession. vm_compute. discriminate.
  - destruct (Htables 0%nat _ eq_refl) as (e & He & _ & Hexact).
    unfold table_total. rewrite He. simpl. f_equal.
    apply Hexact. vm_compute. discriminate.
  - destruct (Htables 1%nat _ eq_refl) as (e & He & _ & Hexact).
    unfold table_total. rewrite He. simpl. f_equal.
    apply Hexact. vm_compute. discriminate.
Defined.

(** Two samples of period 2^63 for one descriptor: the periods aggregated
    sum to 2^64, and [total_period] goes from 2^63 back to 0, in the
    descriptor's table and in the session's. *)
Lemma total_period_wraps_counterexample :
  let session := session_new [evsel_new 0 0 1000] in
  let record := sample_event 10 "schedule" (2 ^ 63) in
  let session1 :=
    perf_evlist__mmap_process_events_idx (abi := linux_abi) id2evsel_from_10
                                         [record] session in
  let session2 :=
    perf_evlist__mmap_process_events_idx (abi := linux_abi) id2evsel_from_10
                                         [record; record] session in
  periods_into (abi := linux_abi) id2evsel_from_10 0 [record; record] session
  = [2 ^ 63; 2 ^ 63] ∧
  sum_periods [2 ^ 63; 2 ^ 63] = 2 ^ 64 ∧
  table_total session1 0 = Some (2 ^ 63) ∧
  table_total session2 0 = Some 0 ∧
  session_total session1 = 2 ^ 63 ∧
  session_total session2 = 0.
Proof. repeat split. Qed.

(** ** The end-to-end scenario *)

Section Scenario.
Context `{abi : perf_abi}.
Variable hist_entry__collapse : hist_key → hist_key → bool.

(** C3.  Three samples in this order, at location A with period 10, at B
    with period 5 and at A with period 7, go into one empty table, A and B
    being different keys that the comparison policy keeps apart.  After
    [perf_evlist__fprintf_hists] has collapsed and re-sorted the table it
    holds exactly two entries, A with weight 17 and then B with weight 5, and
    its [total_period] is 22. *)
Theorem three_samples_two_entries
    (alA alB : addr_location) (sA1 sB sA2 : perf_sample)
    (session : perf_session) (evsel : perf_evsel) :
  hist_key_of alA ≠ hist_key_of alB →
  hist_entry__collapse (hist_key_of alA) (hist_key_of alB) = false →
  sample_period sA1 = 10 →
  sample_period sB = 5 →
  sample_period sA2 = 7 →
  evsel_hists evsel = hists_empty →
  ∃ evsel',
    (perf_evlist__fprintf_hists hist_entry__collapse
       [(add_samples [(alA, sA1); (alB, sB); (alA, sA2)] session evsel).2]).2
    = [evsel'] ∧
    entries (evsel_hists evsel')
    = [{| he_key := hist_key_of alA; he_period := 17 |};
       {| he_key := hist_key_of alB; he_period := 5 |}] ∧
    evsel_total evsel' = 22.
Proof.
  intros Hkeys Hpolicy HpA1 HpB HpA2 Hempty.
  unfold add_samples, perf_session__add_hist_entry, __hists__add_entry.
  simpl. rewrite Hempty, HpA1, HpB, HpA2. simpl.
  rewrite (decide_False _ _ Hkeys). simpl.
  rewrite (decide_True _ _ eq_refl). simpl.
  change (u64_add 10 7) with 17.
  eexists. split; [reflexivity|].
  unfold hists__output_resort, hists__collapse_resort, evsel_total,
    hists_total.
  simpl. rewrite Hpolicy. simpl. split; reflexivity.
Qed.

End Scenario.

Lemma three_samples_two_entries_witness :
  ∃ evsel',
    (perf_evlist__fprintf_hists (λ a b, bool_decide (a = b))
       [(add_samples (abi := linux_abi)
           [located_sample "schedule" 10; located_sample "memcpy" 5;
            located_sample "schedule" 7]
           (session_new []) (evsel_new 0 0 1000)).2]).2
    = [evsel'] ∧
    entries (evsel_hists evsel')
    = [{| he_key := kernel_key "schedule"; he_period := 17 |};
       {| he_key := kernel_key "memcpy"; he_period := 5 |}] ∧
    evsel_total evsel' = 22.
Proof.
  apply (three_samples_two_entries (abi := linux_abi)
           (λ a b, bool_decide (a = b))
           (located_sample "schedule" 10).1 (located_sample "memcpy" 5).1
           (located_sample "schedule" 10).2 (located_sample "memcpy" 5).2
           (located_sample "schedule" 7).2
           (session_new []) (evsel_new 0 0 1000));
    (reflexivity || (vm_compute; congruence)).
Defined.

(** * Further properties of builtin-htop.c *)

(** ** The symbol filter *)

Lemma mark_skipped_spec table name sym :
  mark_skipped table name sym
  = if bool_decide (name ∈ table) then symbol_set_ignore sym else sym.
Proof.
  induction table as [|entry table IH]; [done|].
  cbn [mark_skipped]. unfold strcmp_eq.
  destruct (String.eqb_spec entry name) as [->|Hne].
  - rewrite bool_decide_eq_true_2; [done|]. by left.
  - rewrite IH. destruct (bool_decide (name ∈ table)) eqn:Hin.
    + apply bool_decide_eq_true in Hin.
      rewrite bool_decide_eq_true_2; [done|]. by right.
    + apply bool_decide_eq_false in Hin.
      rewrite bool_decide_eq_false_2; [done|].
      intros [?|?]%elem_of_cons; congruence.
Qed.

(** X1.  [symbol_filter] returns 0 or 1 and never changes the name of the
    symbol or clears its [ignore] flag; on a symbol whose flag is clear it
    sets the flag exactly when the name, one leading dot skipped, is an entry
    of [skip_symbols]. *)
Theorem symbol_filter_marks_exactly_skip_symbols (sym : symbol) :
  ((symbol_filter sym).1 = 0 ∨ (symbol_filter sym).1 = 1) ∧
  sym_name (symbol_filter sym).2 = sym_name sym ∧
  (sym_ignore sym = true → sym_ignore (symbol_filter sym).2 = true) ∧
  (sym_ignore sym = false →
   (sym_ignore (symbol_filter sym).2 = true ↔
    skip_leading_dot (sym_name sym) ∈ skip_symbols)).
Proof.
  split; [|split; [|split]].
  - unfold symbol_filter. destruct (_ || _); cbn [fst snd]; tauto.
  - unfold symbol_filter. destruct (_ || _); cbn [fst snd]; [done|].
    rewrite mark_skipped_spec. by destruct (bool_decide _).
  - intros Hset. unfold symbol_filter. destruct (_ || _); cbn [fst snd]; [done|].
    rewrite mark_skipped_spec. by destruct (bool_decide _).
  - intros Hclear. split.
    + unfold symbol_filter. destruct (_ || _); cbn [fst snd]; [congruence|].
      rewrite mark_skipped_spec.
      destruct (bool_decide _) eqn:Hin; simpl; [|congruence].
      intros _. by apply bool_decide_eq_true in Hin.
    + intros Hin. by rewrite (symbol_filter_skipped _ Hin).
Qed.

(** X2.  The filter does not see one leading dot: a name that does not
    begin with a dot and the same name behind a dot get the same return
    value and the same [ignore] flag. *)
Theorem symbol_filter_skips_one_dot (name : string) (ignore : bool) :
  (∀ rest, name ≠ String "." rest) →
  (symbol_filter {| sym_name := String "." name; sym_ignore := ignore |}).1
  = (symbol_filter {| sym_name := name; sym_ignore := ignore |}).1 ∧
  sym_ignore
    (symbol_filter {| sym_name := String "." name; sym_ignore := ignore |}).2
  = sym_ignore (symbol_filter {| sym_name := name; sym_ignore := ignore |}).2.
Proof.
  intros Hdot.
  assert (skip_leading_dot name = name) as Hname.
  { destruct name as [|c rest]; [done|]. simpl.
    destruct (Ascii.eqb_spec c "."%char) as [->|Hc].
    - by destruct (Hdot rest).
    - destruct c as [[] [] [] [] [] [] [] []]; try done. }
  unfold symbol_filter. cbn [sym_name skip_leading_dot]. rewrite Hname.
  destruct (_ || _); cbn [fst snd]; [done|].
  rewrite !mark_skipped_spec. by destruct (bool_decide _).
Qed.

Lemma symbol_filter_skips_one_dot_witness :
  (symbol_filter {| sym_name := ".poll_idle"; sym_ignore := false |}).1
  = (symbol_filter {| sym_name := "poll_idle"; sym_ignore := false |}).1.
Proof.
  apply (symbol_filter_skips_one_dot "poll_idle" false). intros rest.
  discriminate.
Defined.

Lemma strstr_found_app pre needle post :
  strstr_found (pre +:+ needle +:+ post) needle = true.
Proof.
  induction pre as [|c pre IH]; simpl.
  - assert (String.prefix needle (needle +:+ post) = true) as Hp.
    { induction needle as [|d needle IHn]; simpl; [by destruct post|].
      by destruct (ascii_dec d d). }
    destruct (needle +:+ post); simpl in *; by rewrite Hp.
  - rewrite IH. apply orb_true_r.
Qed.

Lemma skip_leading_dot_cons c s :
  skip_leading_dot (String c s)
  = if Ascii.eqb c "."%char then s else String c s.
Proof. by destruct c as [[] [] [] [] [] [] [] []]. Qed.

Lemma skip_leading_dot_app pre needle post :
  skip_leading_dot needle = needle →
  needle ≠ EmptyString →
  ∃ pre', skip_leading_dot (pre +:+ needle +:+ post) = pre' +:+ needle +:+ post.
Proof.
  intros Hneedle Hne. destruct pre as [|c pre].
  - exists EmptyString.
    destruct needle as [|d needle]; [done|].
    rewrite skip_leading_dot_cons in Hneedle.
    change ("" +:+ String d needle +:+ post)%string
      with (String d (needle +:+ post)).
    rewrite skip_leading_dot_cons.
    destruct (Ascii.eqb d "."%char); [|done].
    exfalso.
    assert (String.length needle = S (String.length needle)) as Hlen
      by (by rewrite Hneedle at 1).
    lia.
  - change (String c pre +:+ needle +:+ post)
      with (String c (pre +:+ needle +:+ post)).
    rewrite skip_leading_dot_cons.
    destruct (Ascii.eqb c "."%char).
    + by exists pre.
    + by exists (String c pre).
Qed.

(** X3.  The filter rejects, with return value 1 and the symbol left as it
    was, every symbol whose name contains "_text_start" or "_text_end"
    anywhere, and every symbol whose name begins, behind an optional dot,
    with "init_module" or "cleanup_module". *)
Theorem symbol_filter_rejects_markers (sym : symbol) :
  (∀ pre post marker,
     marker ∈ ["_text_start"; "_text_end"]%string →
     sym_name sym = pre +:+ marker +:+ post →
     symbol_filter sym = (1, sym)) ∧
  (∀ post marker,
     marker ∈ ["init_module"; "cleanup_module"]%string →
     sym_name sym = marker +:+ post ∨
     sym_name sym = String "." (marker +:+ post) →
     symbol_filter sym = (1, sym)).
Proof.
  split.
  - intros pre post marker Hmarker Hname. unfold symbol_filter.
    rewrite Hname.
    assert (skip_leading_dot marker = marker ∧ marker ≠ EmptyString)
      as [Hm Hne].
    { repeat (apply elem_of_cons in Hmarker as [->|Hmarker]; [done|]).
      by apply elem_of_nil in Hmarker. }
    destruct (skip_leading_dot_app pre marker post Hm Hne) as [pre' ->].
    pose proof (strstr_found_app pre' marker post) as Hfound.
    apply elem_of_cons in Hmarker as [->|Hmarker].
    { rewrite Hfound. by rewrite !orb_true_r. }
    apply elem_of_cons in Hmarker as [->|Hmarker];
      [|by apply elem_of_nil in Hmarker].
    rewrite Hfound. by rewrite !orb_true_r.
  - intros post marker Hmarker Hname. unfold symbol_filter.
    assert (skip_leading_dot (sym_name sym) = marker +:+ post) as ->.
    { destruct Hname as [-> | ->]; [|done].
      repeat (apply elem_of_cons in Hmarker as [->|Hmarker]; [done|]).
      by apply elem_of_nil in Hmarker. }
    apply elem_of_cons in Hmarker as [->|Hmarker].
    { simpl. by rewrite ?orb_true_r. }
    apply elem_of_cons in Hmarker as [->|Hmarker];
      [|by apply elem_of_nil in Hmarker].
    simpl. by rewrite ?orb_true_r.
Qed.

Lemma symbol_filter_rejects_markers_witness :
  symbol_filter {| sym_name := "__init_text_end_0"; sym_ignore := false |}
  = (1, {| sym_name := "__init_text_end_0"; sym_ignore := false |}) ∧
  symbol_filter {| sym_name := ".cleanup_module"; sym_ignore := false |}
  = (1, {| sym_name := ".cleanup_module"; sym_ignore := false |}).
Proof.
  split.
  - apply (proj1 (symbol_filter_rejects_markers _) "__init" "_0" "_text_end");
      [|reflexivity].
    repeat constructor.
  - apply (proj2 (symbol_filter_rejects_markers _) "" "cleanup_module");
      [|by right].
    repeat constructor.
Defined.

(** ** Processing one sample *)

Section SampleFacts.
Context `{abi : perf_abi}.

(** X4.  [perf_event__process_sample] returns 0 or -1.  With 0 it prints
    nothing.  With -1 it prints exactly one error message and leaves the
    descriptor and the session's table as they were: a sample is aggregated
    whole or not at all.  The session's event list is never touched. *)
Theorem process_sample_all_or_nothing
    (event : perf_event) (sample : perf_sample) (evsel : perf_evsel)
    (session : perf_session) :
  abi_errno_positive →
  ∃ ret session' evsel',
    perf_event__process_sample event sample evsel session
    = (ret, session', evsel') ∧
    session_evlist session' = session_evlist session ∧
    attr evsel' = attr evsel ∧
    ((ret = 0 ∧ console session' = console session) ∨
     (ret = -1 ∧
      (∃ msg, console session' = console session ++ [PrErr msg]) ∧
      evsel' = evsel ∧
      session_hists session' = session_hists session)).
Proof.
  intros [Hnomem _]. unfold perf_event__process_sample.
  destruct (perf_event__preprocess_sample event symbol_filter) as [al|].
  2: { eexists _, _, _. split; [done|]. split; [done|]. split; [done|].
       right. by eauto. }
  destruct (al_ignored al).
  { eexists _, _, _. split; [done|]. split; [done|]. split; [done|].
    by left. }
  unfold perf_session__add_hist_entry.
  destruct (__hists__add_entry _ _ _ _) as [h|].
  - simpl. eexists _, _, _. split; [done|]. split; [done|]. split; [done|].
    by left.
  - assert ((- ENOMEM =? 0) = false) as -> by (apply Z.eqb_neq; lia).
    eexists _, _, _. split; [done|]. split; [done|]. split; [done|].
    right. by eauto.
Qed.

End SampleFacts.

Lemma process_sample_all_or_nothing_witness :
  let event := {| header_type := @PERF_RECORD_SAMPLE linux_abi;
                  parse_ret := 0;
                  parsed := {| sample_ip := 0; sample_tid := 1;
                               sample_period := 9; sample_id := 10 |};
                  resolved := None;
                  alloc_ok := true |} in
  (perf_event__process_sample (abi := linux_abi) event (parsed event)
     (evsel_new 0 0 1000) (session_new [])).1.1 = -1.
Proof.
  intros event.
  destruct (process_sample_all_or_nothing (abi := linux_abi) event
              (parsed event) (evsel_new 0 0 1000) (session_new [])
              ltac:(vm_compute; split; reflexivity))
    as (ret & s' & e' & Hrun & _ & _ & Hcases).
  rewrite Hrun. simpl.
  destruct Hcases as [[_ Hquiet] | [-> _]]; [|reflexivity].
  vm_compute in Hrun. inversion Hrun; subst. discriminate.
Defined.

(** ** Draining the buffers *)

Lemma insert_attr_frame (l : list perf_evsel) i v v' :
  l !! i = Some v →
  attr v' = attr v →
  Forall2 (λ a b, attr b = attr a) l (<[i := v']> l).
Proof.
  intros Hi Hattr.
  apply Forall2_same_length_lookup_2; [by rewrite length_insert|].
  intros j a b Ha Hb.
  destruct (decide (i = j)) as [->|Hij].
  - rewrite list_lookup_insert_eq in Hb by (by eapply lookup_lt_Some).
    congruence.
  - rewrite list_lookup_insert_ne in Hb by done. congruence.
Qed.

Lemma attr_frame_trans (l1 l2 l3 : list perf_evsel) :
  Forall2 (λ a b, attr b = attr a) l1 l2 →
  Forall2 (λ a b, attr b = attr a) l2 l3 →
  Forall2 (λ a b, attr b = attr a) l1 l3.
Proof.
  apply Forall2_trans. intros x y z Hxy Hyz. congruence.
Qed.

Lemma attr_frame_refl (l : list perf_evsel) :
  Forall2 (λ a b, attr b = attr a) l l.
Proof. induction l; by constructor. Qed.

Section DrainFacts.
Context `{abi : perf_abi}.
Variable id2evsel : list perf_evsel → Z → option nat.

(** What one record can do to a session. *)
Lemma process_event_effects event session :
  ∃ msgs,
    console (process_event id2evsel event session) = console session ++ msgs ∧
    parse_errors msgs
    = (if parse_ret event =? 0 then [] else [parse_ret event]) ∧
    Forall2 (λ a b, attr b = attr a) (session_evlist session)
            (session_evlist (process_event id2evsel event session)) ∧
    entries (session_hists (process_event id2evsel event session))
    = entries (session_hists session) ∧
    nr_events (stats (session_hists (process_event id2evsel event session)))
    = nr_events (stats (session_hists session)).
Proof.
  unfold process_event.
  destruct (parse_ret event =? 0) eqn:Hparse; simpl.
  2: { exists [PrErrParse (parse_ret event)].
       repeat split; try done. apply attr_frame_refl. }
  assert (∃ msgs : list console_msg,
            console session = console session ++ msgs ∧
            parse_errors msgs = [] ∧
            Forall2 (λ a b, attr b = attr a) (session_evlist session)
                    (session_evlist session) ∧
            entries (session_hists session) = entries (session_hists session) ∧
            nr_events (stats (session_hists session))
            = nr_events (stats (session_hists session))) as Hsame.
  { exists []. rewrite app_nil_r. repeat split; try done.
    apply attr_frame_refl. }
  destruct (header_type event =? PERF_RECORD_SAMPLE); [|exact Hsame].
  destruct (id2evsel _ _) as [i|]; [|exact Hsame].
  destruct (session_evlist session !! i) as [evsel|] eqn:Hi; [|exact Hsame].
  clear Hsame. unfold perf_event__process_sample.
  destruct (perf_event__preprocess_sample event symbol_filter) as [al|].
  2: { simpl. eexists [_]. repeat split; try done.
       by eapply insert_attr_frame. }
  destruct (al_ignored al).
  { simpl. exists []. rewrite app_nil_r. repeat split; try done.
    by eapply insert_attr_frame. }
  unfold perf_session__add_hist_entry.
  destruct (__hists__add_entry _ _ _ _) as [h|].
  - simpl. exists []. rewrite app_nil_r. repeat split; try done.
    by eapply insert_attr_frame.
  - destruct (- ENOMEM =? 0); simpl.
    + exists []. rewrite app_nil_r. repeat split; try done.
      by eapply insert_attr_frame.
    + eexists [_]. repeat split; try done.
      by eapply insert_attr_frame.
Qed.

Lemma drain_idx_cons event records session :
  perf_evlist__mmap_process_events_idx id2evsel (event :: records) session
  = perf_evlist__mmap_process_events_idx id2evsel records
      (process_event id2evsel event session).
Proof. reflexivity. Qed.

(** X6.  Draining never touches what negotiation set up or what belongs to
    the session as a whole: the event list keeps its length and every
    descriptor its attributes, and the session's own table gets no entry
    and no event count, only [total_period]. *)
Theorem drain_keeps_descriptors
    (records : list perf_event) (session : perf_session) :
  let session' :=
    perf_evlist__mmap_process_events_idx id2evsel records session in
  Forall2 (λ evsel evsel', attr evsel' = attr evsel)
          (session_evlist session) (session_evlist session') ∧
  entries (session_hists session') = entries (session_hists session) ∧
  nr_events (stats (session_hists session'))
  = nr_events (stats (session_hists session)).
Proof.
  revert session. induction records as [|e records IH]; intros session;
    cbv zeta in *.
  - split; [apply attr_frame_refl | done].
  - rewrite drain_idx_cons.
    destruct (process_event_effects e session) as (_ & _ & _ & Ha & He & Hn).
    destruct (IH (process_event id2evsel e session)) as (Ha' & He' & Hn').
    simpl in *. split; [by eapply attr_frame_trans|].
    split; congruence.
Qed.

(** X7.  Every record that fails to parse is reported, with its error code,
    once and in order, and nothing is ever taken back from the console:
    the console after a drain is the console before it followed by new
    messages, whose "Can't parse sample" codes are the return values of the
    records that did not parse. *)
Theorem drain_reports_parse_failures
    (records : list perf_event) (session : perf_session) :
  ∃ msgs,
    console (perf_evlist__mmap_process_events_idx id2evsel records session)
    = console session ++ msgs ∧
    parse_errors msgs
    = parse_ret <$> List.filter (λ e, negb (parse_ret e =? 0)) records.
Proof.
  revert session. induction records as [|e records IH]; intros session.
  - exists []. by rewrite app_nil_r.
  - rewrite drain_idx_cons.
    destruct (process_event_effects e session) as (m1 & Hc1 & Hp1 & _).
    destruct (IH (process_event id2evsel e session)) as (m2 & Hc2 & Hp2).
    exists (m1 ++ m2). split.
    + by rewrite Hc2, Hc1, app_assoc.
    + unfold parse_errors in *. rewrite omap_app, Hp1, Hp2. simpl.
      by destruct (parse_ret e =? 0).
Qed.

(** The tables after a sample depend on the tables before it, not on the
    console. *)
Lemma process_sample_tables event sample evsel s t :
  session_hists s = session_hists t →
  (perf_event__process_sample event sample evsel s).2
  = (perf_event__process_sample event sample evsel t).2 ∧
  session_hists (perf_event__process_sample event sample evsel s).1.2
  = session_hists (perf_event__process_sample event sample evsel t).1.2 ∧
  session_evlist (perf_event__process_sample event sample evsel s).1.2
  = session_evlist s ∧
  session_evlist (perf_event__process_sample event sample evsel t).1.2
  = session_evlist t.
Proof.
  intros Hh. unfold perf_event__process_sample.
  destruct (perf_event__preprocess_sample event symbol_filter) as [al|];
    [|done].
  destruct (al_ignored al); [done|].
  unfold perf_session__add_hist_entry.
  destruct (__hists__add_entry _ _ _ _) as [h|].
  - simpl. by rewrite Hh.
  - by destruct (- ENOMEM =? 0).
Qed.

Lemma process_event_tables_congr event s t :
  session_tables s = session_tables t →
  session_tables (process_event id2evsel event s)
  = session_tables (process_event id2evsel event t).
Proof.
  unfold session_tables. intros Heq.
  assert (session_hists s = session_hists t) as Hh by congruence.
  assert (session_evlist s = session_evlist t) as Hl by congruence.
  clear Heq. unfold process_event, perf_event__process.
  destruct (negb (parse_ret event =? 0)); simpl; [congruence|].
  destruct (header_type event =? PERF_RECORD_SAMPLE); [|congruence].
  rewrite Hl. destruct (id2evsel _ _) as [i|]; [|congruence].
  destruct (session_evlist t !! i) as [evsel|]; [|congruence].
  destruct (process_sample_tables event (parsed event) evsel s t Hh)
    as (Hv & Hh' & Hls & Hlt).
  destruct (perf_event__process_sample event (parsed event) evsel s)
    as [[rs s'] vs].
  destruct (perf_event__process_sample event (parsed event) evsel t)
    as [[rt t'] vt].
  simpl in *. congruence.
Qed.

Lemma process_event_noise event session :
  is_parsed_sample event = false →
  session_tables (process_event id2evsel event session)
  = session_tables session.
Proof.
  unfold is_parsed_sample, process_event. intros Hnoise.
  destruct (parse_ret event =? 0); simpl in *; [|done].
  by rewrite Hnoise.
Qed.

(** X8.  The histograms after a drain are decided by the records that parse
    and are samples, and by the histograms before it: records that fail to
    parse, records of other types and whatever is on the console make no
    difference to any table. *)
Theorem drain_tables_from_parsed_samples
    (records : list perf_event) (s t : perf_session) :
  session_tables s = session_tables t →
  session_tables (perf_evlist__mmap_process_events_idx id2evsel records s)
  = session_tables
      (perf_evlist__mmap_process_events_idx id2evsel
         (List.filter is_parsed_sample records) t).
Proof.
  revert s t. induction records as [|e records IH]; intros s t Heq; [done|].
  rewrite drain_idx_cons. simpl.
  destruct (is_parsed_sample e) eqn:He.
  - rewrite drain_idx_cons. apply IH. by apply process_event_tables_congr.
  - apply IH. by rewrite process_event_noise.
Qed.

End DrainFacts.

Lemma drain_tables_from_parsed_samples_witness :
  let noise := {| header_type := 1; parse_ret := 0;
                  parsed := {| sample_ip := 0; sample_tid := 1;
                               sample_period := 0; sample_id := 0 |};
                  resolved := None; alloc_ok := true |} in
  let broken := {| header_type := @PERF_RECORD_SAMPLE linux_abi;
                   parse_ret := -14;
                   parsed := {| sample_ip := 0; sample_tid := 1;
                                sample_period := 50; sample_id := 10 |};
                   resolved := None; alloc_ok := true |} in
  let session := session_new [evsel_new 0 0 1000] in
  session_tables
    (perf_evlist__mmap_process_events_idx (abi := linux_abi) id2evsel_from_10
       [noise; sample_event 10 "schedule" 10; broken] session)
  = session_tables
      (perf_evlist__mmap_process_events_idx (abi := linux_abi)
         id2evsel_from_10 [sample_event 10 "schedule" 10] session).
Proof.
  intros noise broken session.
  apply (drain_tables_from_parsed_samples (abi := linux_abi) id2evsel_from_10
           [noise; sample_event 10 "schedule" 10; broken] session session).
  reflexivity.
Defined.

(** ** More on negotiation *)

Section NegotiationEffects.
Context `{abi : perf_abi}.
Variable opts : options.
Variable k : kernel.

Lemma start_attr_event nr a :
  attr_event (start_attr opts nr a) = attr_event a.
Proof.
  unfold start_attr, attr_event.
  destruct (negb (freq opts =? 0)), (1 <? nr); reflexivity.
Qed.

Lemma start_attr_is_hw_cycles nr a :
  is_hw_cycles (start_attr opts nr a) = is_hw_cycles a.
Proof.
  unfold start_attr, is_hw_cycles.
  destruct (negb (freq opts =? 0)), (1 <? nr); reflexivity.
Qed.

Lemma start_attr_mmap_inherit nr a :
  attr_mmap (start_attr opts nr a) = true ∧
  attr_inherit (start_attr opts nr a) = inherit opts.
Proof.
  unfold start_attr.
  destruct (negb (freq opts =? 0)), (1 <? nr); by split.
Qed.

(** The marks one descriptor leaves on the negotiation record. *)
Lemma try_again_effects fuel : ∀ a n ok a' n',
  try_again opts k fuel a n = Some (ok, a', n') →
  ∃ more_opens new_warnings,
    opens n' = opens n ++ a :: more_opens ∧
    warnings n' = warnings n ++ new_warnings ∧
    Forall (same_settings a) more_opens ∧
    (attr_event a' = attr_event a ∨
     (is_hw_cycles a = true ∧
      attr_event a' = (PERF_TYPE_SOFTWARE, PERF_COUNT_SW_CPU_CLOCK))) ∧
    (is_hw_cycles a = false → more_opens = []) ∧
    (abi_fallback_distinct → (length more_opens ≤ 1)%nat) ∧
    (verbose opts = 0 →
     (ok = true ∧ new_warnings = []) ∨
     (ok = false ∧ ∃ m, new_warnings = [m])).
Proof.
  induction fuel as [|fuel IH]; intros a n ok a' n' Hrun; [done|].
  simpl in Hrun.
  assert (∀ m,
    ∃ more_opens new_warnings,
      opens (neg_warn (neg_open n a) m) = opens n ++ a :: more_opens ∧
      warnings (neg_warn (neg_open n a) m) = warnings n ++ new_warnings ∧
      Forall (same_settings a) more_opens ∧
      (attr_event a = attr_event a ∨
       (is_hw_cycles a = true ∧
        attr_event a = (PERF_TYPE_SOFTWARE, PERF_COUNT_SW_CPU_CLOCK))) ∧
      (is_hw_cycles a = false → more_opens = []) ∧
      (abi_fallback_distinct → (length more_opens ≤ 1)%nat) ∧
      (verbose opts = 0 →
       (false = true ∧ new_warnings = []) ∨
       (false = false ∧ ∃ m, new_warnings = [m]))) as Hfail.
  { intros m. exists [], [m]. simpl.
    repeat split; try done; [by left | lia | right; by eauto]. }
  destruct (sys_open k _ a _) as [|err].
  { inversion Hrun; subst. exists [], []. simpl. rewrite app_nil_r.
    repeat split; try done; [by left | lia | by left]. }
  destruct ((err =? EPERM) || (err =? EACCES)).
  { inversion Hrun; subst. apply Hfail. }
  destruct (is_hw_cycles a) eqn:Hcyc.
  2: { destruct (err =? ENOENT); inversion Hrun; subst; apply Hfail. }
  clear Hfail.
  apply IH in Hrun
    as (more & new & Hopens & Hwarn & Hsame & Hevent & Hlast & _ & Hquiet).
  exists (attr_set_event a PERF_TYPE_SOFTWARE PERF_COUNT_SW_CPU_CLOCK :: more).
  exists ((if negb (verbose opts =? 0)
           then [UiWarning
                   "Cycles event not supported, trying to fall back to cpu-clock-ticks"]
           else []) ++ new).
  split; [|split; [|split; [|split; [|split; [|split]]]]].
  - rewrite Hopens. destruct (negb (verbose opts =? 0)); simpl;
      by rewrite <- app_assoc.
  - rewrite Hwarn. destruct (negb (verbose opts =? 0)); simpl;
      by rewrite <- ?app_assoc.
  - constructor; [apply same_settings_set_event|].
    eapply Forall_impl; [exact Hsame|]. intros b Hb.
    eapply same_settings_trans; [apply same_settings_set_event|exact Hb].
  - right. split; [done|]. by destruct Hevent as [-> | [_ ->]].
  - done.
  - intros Habi. simpl.
    rewrite Hlast; [simpl; lia|].
    by apply is_hw_cycles_after_fallback.
  - intros Hv. rewrite Hv. simpl. by apply Hquiet.
Qed.

(** The marks the loop over the descriptors leaves. *)
Lemma start_entries_effects fuel nr : ∀ todo n ok l n',
  start_entries opts k fuel nr todo n = Some (ok, l, n') →
  ∃ new_opens new_warnings,
    opens n' = opens n ++ new_opens ∧
    warnings n' = warnings n ++ new_warnings ∧
    Forall2 (λ e e',
               evsel_hists e' = evsel_hists e ∧
               (attr_event (attr e') = attr_event (attr e) ∨
                (is_hw_cycles (attr e) = true ∧
                 attr_event (attr e')
                 = (PERF_TYPE_SOFTWARE, PERF_COUNT_SW_CPU_CLOCK))))
            todo l ∧
    Forall (λ b, ∃ e, e ∈ todo ∧ same_settings (start_attr opts nr (attr e)) b)
           new_opens ∧
    head new_opens = (λ e, start_attr opts nr (attr e)) <$> head todo ∧
    (ok = true → (length todo ≤ length new_opens)%nat) ∧
    (abi_fallback_distinct → (length new_opens ≤ 2 * length todo)%nat) ∧
    (verbose opts = 0 →
     (ok = true ∧ new_warnings = []) ∨
     (ok = false ∧ ∃ m, new_warnings = [m])).
Proof.
  induction todo as [|evsel rest IH]; intros n ok l n' Hrun; simpl in Hrun.
  { inversion Hrun; subst. exists [], []. rewrite !app_nil_r.
    split; [done|]. split; [done|]. split; [constructor|].
    split; [constructor|]. split; [done|]. split; [done|].
    split; [simpl; lia|]. intros _. by left. }
  destruct (try_again opts k fuel _ n) as [[[ok1 a1] n1]|] eqn:Htry; [|done].
  apply try_again_effects in Htry
    as (more & new & Hopens & Hwarn & Hsame & Hevent & _ & Hbound & Hquiet).
  rewrite start_attr_event, start_attr_is_hw_cycles in Hevent.
  assert (Forall (λ b, ∃ e, e ∈ evsel :: rest ∧
                         same_settings (start_attr opts nr (attr e)) b)
                 (start_attr opts nr (attr evsel) :: more)) as Hfrom.
  { constructor.
    - exists evsel. split; [by left | apply same_settings_refl].
    - eapply Forall_impl; [exact Hsame|]. intros b Hb.
      exists evsel. split; [by left | done]. }
  destruct ok1.
  - destruct (start_entries opts k fuel nr rest n1) as [[[ok2 l2] n2]|]
      eqn:Hrest; [|done].
    inversion Hrun; subst. clear Hrun.
    apply IH in Hrest
      as (new_o & new_w & Ho2 & Hw2 & Hall & Hfrom2 & _ & Hmin & Hmax & Hq2).
    exists ((start_attr opts nr (attr evsel) :: more) ++ new_o), (new ++ new_w).
    split; [|split; [|split; [|split; [|split; [|split; [|split]]]]]].
    + rewrite Ho2, Hopens. by rewrite <- !app_assoc.
    + rewrite Hw2, Hwarn. by rewrite <- app_assoc.
    + constructor; [by split | done].
    + apply Forall_app. split; [done|].
      eapply Forall_impl; [exact Hfrom2|]. intros b (e & He & Hb).
      exists e. split; [by right | done].
    + done.
    + intros Hok. specialize (Hmin Hok). rewrite length_app. simpl. lia.
    + intros Habi. specialize (Hmax Habi). specialize (Hbound Habi).
      rewrite length_app. simpl. lia.
    + intros Hv. destruct (Hquiet Hv) as [[_ ->] | [? _]]; [|done].
      simpl. by apply Hq2.
  - inversion Hrun; subst. clear Hrun.
    exists (start_attr opts nr (attr evsel) :: more), new.
    split; [done|]. split; [done|].
    split; [|split; [|split; [|split; [|split]]]].
    + constructor; [by split|].
      clear. induction rest; constructor; [|done]. split; [done | by left].
    + done.
    + done.
    + done.
    + intros Habi. specialize (Hbound Habi). simpl. lia.
    + intros Hv. by apply Hquiet.
Qed.

End NegotiationEffects.

Section NegotiationExtras.
Context `{abi : perf_abi}.
Variable opts : options.
Variable k : kernel.

(** X9.  [perf_evlist__start] returns 0 or -1.  Whatever it returns, the
    event list has the descriptors it had, each with its histogram
    untouched, and a descriptor names the event it named before unless it
    named the hardware cycle counter and now names the software
    cpu-clock. *)
Theorem start_changes_only_cycles_events
    (fuel : nat) (evlist evlist' : list perf_evsel) (n n' : negotiation)
    (ret : Z) :
  perf_evlist__start opts k fuel evlist n = Some (ret, evlist', n') →
  (ret = 0 ∨ ret = -1) ∧
  Forall2 (λ e e',
             evsel_hists e' = evsel_hists e ∧
             (attr_event (attr e') = attr_event (attr e) ∨
              (is_hw_cycles (attr e) = true ∧
               attr_event (attr e')
               = (PERF_TYPE_SOFTWARE, PERF_COUNT_SW_CPU_CLOCK))))
          evlist evlist'.
Proof.
  unfold perf_evlist__start. intros Hrun.
  destruct (start_entries opts k fuel _ evlist n) as [[[ok l] m]|] eqn:Hloop;
    [|done].
  apply start_entries_effects in Hloop as (_ & _ & _ & _ & Hall & _).
  destruct ok; [destruct (sys_mmap k _)|]; inversion Hrun; subst;
    (split; [tauto | done]).
Qed.

(** X10.  After a successful [perf_evlist__start] all descriptors share one
    sample layout, whatever [sample_type] they came with: IP and TID, PERIOD
    when a frequency is in force, ID when there are several descriptors.
    Each has [mmap] set and [inherit] as the option says. *)
Theorem start_gives_one_sample_layout
    (fuel : nat) (evlist evlist' : list perf_evsel) (n n' : negotiation)
    (evsel' : perf_evsel) :
  perf_evlist__start opts k fuel evlist n = Some (0, evlist', n') →
  evsel' ∈ evlist' →
  attr_sample_type (attr evsel')
  = (let base :=
       if negb (freq opts =? 0)
       then Z.lor (Z.lor PERF_SAMPLE_IP PERF_SAMPLE_TID) PERF_SAMPLE_PERIOD
       else Z.lor PERF_SAMPLE_IP PERF_SAMPLE_TID in
     if 1 <? Z.of_nat (length evlist) then Z.lor base PERF_SAMPLE_ID
     else base) ∧
  attr_mmap (attr evsel') = true ∧
  attr_inherit (attr evsel') = inherit opts.
Proof.
  unfold perf_evlist__start. intros Hrun Hin.
  destruct (start_entries opts k fuel _ evlist n) as [[[ok l] m]|] eqn:Hloop;
    [|done].
  destruct ok; [|by inversion Hrun].
  destruct (sys_mmap k _); inversion Hrun; subst; clear Hrun.
  apply start_entries_ok in Hloop.
  apply list_elem_of_lookup in Hin as [i Hi].
  destruct (Forall2_lookup_r _ _ _ _ _ Hloop Hi)
    as (e & _ & _ & _ & _ & Hty & _ & Hmmap & Hinh).
  rewrite Hty, Hmmap, Hinh, start_attr_sample_type.
  split; [done|]. apply start_attr_mmap_inherit.
Qed.

(** X11.  Negotiation opens every descriptor at most twice, and when it
    succeeds it has opened every descriptor at least once: the opens on the
    record grow by at most twice the number of descriptors, and by at least
    that number on success. *)
Theorem start_opens_each_descriptor_once_or_twice
    (fuel : nat) (evlist evlist' : list perf_evsel) (n n' : negotiation)
    (ret : Z) :
  abi_fallback_distinct →
  perf_evlist__start opts k fuel evlist n = Some (ret, evlist', n') →
  ∃ new_opens,
    opens n' = opens n ++ new_opens ∧
    (length new_opens ≤ 2 * length evlist)%nat ∧
    (ret = 0 → (length evlist ≤ length new_opens)%nat).
Proof.
  unfold perf_evlist__start. intros Habi Hrun.
  destruct (start_entries opts k fuel _ evlist n) as [[[ok l] m]|] eqn:Hloop;
    [|done].
  apply start_entries_effects in Hloop
    as (new & _ & Ho & _ & _ & _ & _ & Hmin & Hmax & _).
  exists new.
  destruct ok; [destruct (sys_mmap k _)|]; inversion Hrun; subst; simpl;
    (split; [done|]); (split; [by apply Hmax|]); intros; by auto.
Qed.

(** X12.  At verbosity 0 a negotiation that succeeds prints nothing and one
    that fails prints exactly one warning, be it for a descriptor that
    would not open or for the mapping of the buffers. *)
Theorem start_warns_once_on_failure
    (fuel : nat) (evlist evlist' : list perf_evsel) (n n' : negotiation)
    (ret : Z) :
  verbose opts = 0 →
  perf_evlist__start opts k fuel evlist n = Some (ret, evlist', n') →
  (ret = 0 ∧ warnings n' = warnings n ∧ sys_mmap k (mmap_pages opts) = SysOk) ∨
  (ret = -1 ∧ ∃ m, warnings n' = warnings n ++ [m]).
Proof.
  unfold perf_evlist__start. intros Hv Hrun.
  destruct (start_entries opts k fuel _ evlist n) as [[[ok l] m]|] eqn:Hloop;
    [|done].
  apply start_entries_effects in Hloop
    as (_ & new & _ & Hw & _ & _ & _ & _ & _ & Hquiet).
  destruct (Hquiet Hv) as [[-> ->] | [-> [msg ->]]].
  - rewrite app_nil_r in Hw.
    destruct (sys_mmap k _) as [|err]; inversion Hrun; subst.
    + left. by repeat split.
    + right. split; [done|]. exists (UiWarningMmap err). simpl.
      by rewrite Hw.
  - inversion Hrun; subst. right. split; [done|]. by exists msg.
Qed.

End NegotiationExtras.

(** ** More on the command *)

Lemma fill_sample_period_keeps env o : ∀ evlist pos evlist1,
  fill_sample_period env o pos evlist = Some evlist1 →
  Forall2 (λ e0 e1,
             evsel_hists e1 = evsel_hists e0 ∧
             attr_event (attr e1) = attr_event (attr e0) ∧
             (attr_sample_period (attr e1) = attr_sample_period (attr e0) ∨
              (attr_sample_period (attr e0) = 0 ∧
               attr_sample_period (attr e1) = to_u64 (default_interval o))))
          evlist evlist1.
Proof.
  induction evlist as [|e rest IH]; intros pos evlist1 H; simpl in H.
  - inversion H. constructor.
  - destruct (negb (alloc_fd_ok env pos)); [done|].
    destruct (fill_sample_period env o (S pos) rest) as [rest'|] eqn:Hrest;
      [|done].
    inversion H; subst. constructor; [|by eapply IH].
    destruct (Z.eqb_spec (attr_sample_period (attr e)) 0) as [Hz|Hz]; simpl.
    + repeat split; try done. by right.
    + repeat split; try done. by left.
Qed.


Lemma to_u64_nonzero z : is_int z → z ≠ 0 → to_u64 z ≠ 0.
Proof.
  unfold is_int, to_u64. intros Hz Hne Hmod.
  apply Z.mod_divide in Hmod; [|lia].
  destruct Hmod as [q Hq].
  assert (q = 0 ∨ q ≤ -1 ∨ 1 ≤ q) as [-> | [Hq' | Hq']] by lia; lia.
Qed.

Section CommandFacts.
Context `{abi : perf_abi}.
Variable id2evsel : list perf_evsel → Z → option nat.
Variable k : kernel.

(** The ways through [__cmd_top]. *)
Lemma cmd_top_cases fuel env opts evlist its r :
  __cmd_top id2evsel k fuel env opts evlist its = Some r →
  (session_new_ok env = false ∧ r = run_stop (Returned (- ENOMEM)) []) ∨
  (session_new_ok env = true ∧
   ∃ ret evlist' n session,
     perf_evlist__start opts k fuel evlist negotiation_start
     = Some (ret, evlist', n) ∧
     run_opens r = opens n ∧
     run_session r = Some session ∧
     ((∃ err, pthread_create_ret env = SysErr err ∧
              run_outcome r = Returned (- err) ∧ run_polls r = [100]) ∨
      (pthread_create_ret env = SysOk ∧
       ∃ stop polls,
         sampling_loop id2evsel its
           (perf_evlist__mmap_process_events id2evsel (first_buffers env)
              {| session_hists := hists_empty;
                 session_evlist := evlist';
                 console := warnings n |})
           [100]
         = (stop, session, polls) ∧
         run_outcome r = (if stop then Returned 0 else Sampling) ∧
         run_polls r = polls))).
Proof.
  unfold __cmd_top. intros Hrun.
  destruct (session_new_ok env); simpl in Hrun;
    [|left; split; [done|]; by inversion Hrun].
  right. split; [done|].
  destruct (perf_evlist__start opts k fuel evlist negotiation_start)
    as [[[ret evlist'] n]|]; [|done].
  destruct (pthread_create_ret env) as [|err].
  - destruct (sampling_loop _ _ _ _) as [[stop session] polls] eqn:Hloop.
    inversion Hrun; subst. simpl.
    exists ret, evlist', n, session. repeat split.
    right. split; [done|]. by exists stop, polls.
  - inversion Hrun; subst. simpl.
    eexists ret, evlist', n, _. repeat split.
    left. by exists err.
Qed.

(** The ways through [cmd_htop]. *)
Lemma cmd_htop_cases fuel env its r :
  cmd_htop id2evsel k fuel env its = Some r →
  (∃ o msgs, r = run_stop o msgs ∧
             (o = UsageExit ∨ o = Returned (- ENOMEM) ∨
              o = Returned (- EINVAL))) ∨
  (evlist_new_ok env = true ∧ argc_left env = 0 ∧
   create_maps_ok env = true ∧ alloc_pollfd_ok env = true ∧
   alloc_mmap_ok env = true ∧ symbol_init_ok env = true ∧
   ∃ opts evlist,
     settle_rate (parsed_options env) = Some opts ∧
     fill_sample_period env opts 0 (selected_events env) = Some evlist ∧
     __cmd_top id2evsel k fuel env opts evlist its = Some r).
Proof.
  unfold cmd_htop, selected_events. intros Hrun.
  destruct (evlist_new_ok env); simpl in Hrun.
  2: { left. inversion Hrun. eexists _, _. split; [done|]. tauto. }
  destruct (Z.eqb_spec (argc_left env) 0) as [Hargc|Hargc]; simpl in Hrun.
  2: { left. inversion Hrun. eexists _, _. split; [done|]. tauto. }
  destruct (create_maps_ok env); simpl in Hrun.
  2: { left. inversion Hrun. eexists _, _. split; [done|]. tauto. }
  destruct ((Z.of_nat (length (parsed_events env)) =? 0)
            && negb (add_default_ok env)).
  { left. inversion Hrun. eexists _, _. split; [done|]. tauto. }
  destruct (settle_rate (parsed_options env)) as [opts|].
  2: { left. inversion Hrun. eexists _, _. split; [done|]. tauto. }
  destruct (fill_sample_period env opts 0 _) as [evlist|] eqn:Hfill.
  2: { left. inversion Hrun. eexists _, _. split; [done|]. tauto. }
  destruct (alloc_pollfd_ok env); simpl in Hrun.
  2: { left. inversion Hrun. eexists _, _. split; [done|]. tauto. }
  destruct (alloc_mmap_ok env); simpl in Hrun.
  2: { left. inversion Hrun. eexists _, _. split; [done|]. tauto. }
  destruct (symbol_init_ok env); simpl in Hrun.
  2: { left. inversion Hrun. eexists _, _. split; [done|]. tauto. }
  right. repeat split; try done. by exists opts, evlist.
Qed.

End CommandFacts.

Section LoopEffects.
Context `{abi : perf_abi}.
Variable id2evsel : list perf_evsel → Z → option nat.


End LoopEffects.

Section CommandExtras.
Context `{abi : perf_abi}.
Variable id2evsel : list perf_evsel → Z → option nat.
Variable k : kernel.

(** X14.  The command opens no descriptor and waits on nothing unless every
    set-up step before [__cmd_top] and the creation of the session
    succeeded, no argument was left over, and a count or a frequency was
    given. *)
Theorem command_acts_only_after_setup
    (fuel : nat) (env : startup) (its : list iteration) (r : run) :
  cmd_htop id2evsel k fuel env its = Some r →
  run_opens r ≠ [] ∨ run_polls r ≠ [] →
  evlist_new_ok env = true ∧ argc_left env = 0 ∧
  create_maps_ok env = true ∧ alloc_pollfd_ok env = true ∧
  alloc_mmap_ok env = true ∧ symbol_init_ok env = true ∧
  session_new_ok env = true ∧
  (default_interval (parsed_options env) ≠ 0 ∨
   freq (parsed_options env) ≠ 0).
Proof.
  intros Hrun Hacts.
  destruct (cmd_htop_cases id2evsel k fuel env its r Hrun)
    as [(o & msgs & -> & _) | (H1 & H2 & H3 & H4 & H5 & H6 & opts & evlist
                               & Hrate & _ & Htop)].
  { simpl in Hacts. by destruct Hacts. }
  destruct (cmd_top_cases id2evsel k fuel env opts evlist its r Htop)
    as [[_ ->] | [H7 _]].
  { simpl in Hacts. by destruct Hacts. }
  repeat split; try done.
  destruct (settle_rate_cases _ _ Hrate) as [(? & _) | (_ & ? & _)]; tauto.
Qed.



(** X17.  The default descriptor is used exactly when the command line
    selected no event: the first descriptor the command opens names the
    hardware cycle counter if no event was selected, and the first selected
    event otherwise. *)
Theorem first_open_is_first_selected_event
    (fuel : nat) (env : startup) (its : list iteration) (r : run)
    (a : perf_event_attr) (rest : list perf_event_attr) :
  cmd_htop id2evsel k fuel env its = Some r →
  run_opens r = a :: rest →
  (parsed_events env = [] →
   attr_event a = (PERF_TYPE_HARDWARE, PERF_COUNT_HW_CPU_CYCLES)) ∧
  (∀ e es, parsed_events env = e :: es → attr_event a = attr_event (attr e)).
Proof.
  intros Hrun Hopens.
  destruct (cmd_htop_cases id2evsel k fuel env its r Hrun)
    as [(o & msgs & -> & _) | (_ & _ & _ & _ & _ & _ & opts & evlist
                               & _ & Hfill & Htop)]; [done|].
  destruct (cmd_top_cases id2evsel k fuel env opts evlist its r Htop)
    as [[_ ->] | (_ & ret & evlist' & n & session & Hstart & Hr & _)]; [done|].
  unfold perf_evlist__start in Hstart.
  destruct (start_entries opts k fuel _ evlist negotiation_start)
    as [[[ok l] m]|] eqn:Hloop; [|done].
  apply start_entries_effects in Hloop
    as (new & _ & Ho & _ & _ & _ & Hhead & _).
  assert (opens n = new) as Hn.
  { destruct ok; [destruct (sys_mmap k _)|]; by inversion Hstart; subst. }
  rewrite Hr, Hn in Hopens. subst new. simpl in Hhead.
  apply fill_sample_period_keeps in Hfill.
  destruct evlist as [|e1 evlist]; [done|]. simpl in Hhead.
  inversion Hhead as [Ha]. rewrite start_attr_event.
  destruct (selected_events env) as [|e0 sel] eqn:Hsel;
    [by inversion Hfill|].
  apply Forall2_cons in Hfill as [(_ & Hev & _) _]. rewrite Hev.
  unfold selected_events in Hsel. split.
  - intros Hnone. rewrite Hnone in Hsel. simpl in Hsel.
    by inversion Hsel; subst.
  - intros e es Hsome. rewrite Hsome in Hsel. simpl in Hsel.
    by inversion Hsel; subst.
Qed.

(** X18.  The command never opens a descriptor with a zero period or
    frequency: whatever periods the selected events carry, every open it
    attempts has a non-zero [sample_period]/[sample_freq]. *)
Theorem command_never_opens_zero_rate
    (fuel : nat) (env : startup) (its : list iteration) (r : run) :
  is_int (default_interval (parsed_options env)) →
  is_int (freq (parsed_options env)) →
  cmd_htop id2evsel k fuel env its = Some r →
  Forall (λ a, attr_sample_period a ≠ 0) (run_opens r).
Proof.
  intros Hcount Hfreq Hrun.
  destruct (cmd_htop_cases id2evsel k fuel env its r Hrun)
    as [(o & msgs & -> & _) | (_ & _ & _ & _ & _ & _ & opts & evlist
                               & Hrate & Hfill & Htop)]; [by constructor|].
  destruct (cmd_top_cases id2evsel k fuel env opts evlist its r Htop)
    as [[_ ->] | (_ & ret & evlist' & n & session & Hstart & -> & _)];
    [by constructor|].
  unfold perf_evlist__start in Hstart.
  destruct (start_entries opts k fuel _ evlist negotiation_start)
    as [[[ok l] m]|] eqn:Hloop; [|done].
  apply start_entries_effects in Hloop
    as (new & _ & Ho & _ & _ & Hfrom & _).
  assert (opens n = new) as ->.
  { destruct ok; [destruct (sys_mmap k _)|]; by inversion Hstart; subst. }
  apply fill_sample_period_spec in Hfill.
  eapply Forall_impl; [exact Hfrom|].
  intros b (e1 & Hin & Hper & _).
  rewrite Hper, start_attr_sample_period.
  apply list_elem_of_lookup in Hin as [i Hi].
  destruct (Forall2_lookup_r _ _ _ _ _ Hfill Hi) as (e0 & _ & Hattr).
  destruct (settle_rate_cases _ _ Hrate)
    as [(Hd & Hf & Hd') | (Hd & Hf & Hf' & Hd')].
  - rewrite Hf. simpl. rewrite Hattr.
    destruct (Z.eqb_spec (attr_sample_period (attr e0)) 0); simpl; [|done].
    apply to_u64_nonzero; by rewrite Hd'.
  - rewrite Hf'.
    destruct (Z.eqb_spec (freq (parsed_options env)) 0); simpl; [done|].
    by apply to_u64_nonzero.
Qed.

End CommandExtras.

(** ** The display thread *)

Lemma count_tcsetattr_app w l1 l2 :
  count_tcsetattr w (l1 ++ l2)
  = (count_tcsetattr w l1 + count_tcsetattr w l2)%nat.
Proof.
  unfold count_tcsetattr. by rewrite List.filter_app, length_app.
Qed.

Lemma display_frame_refl l : Forall2 display_frame l l.
Proof. induction l; by constructor. Qed.

Lemma display_frame_trans l1 l2 l3 :
  Forall2 display_frame l1 l2 → Forall2 display_frame l2 l3 →
  Forall2 display_frame l1 l3.
Proof.
  apply Forall2_trans. unfold display_frame.
  intros x y z [] []. split; congruence.
Qed.

Section DisplayFacts.
Variable ICANON : Z.
Variable ECHO : Z.
Variable policy : hist_key → hist_key → bool.
Variable save : termios.

Lemma fprintf_hists_frame evlist :
  Forall2 display_frame evlist (perf_evlist__fprintf_hists policy evlist).2.
Proof. simpl. induction evlist; by constructor. Qed.

Lemma display_refresh_effects rs : ∀ evlist tty,
  ∃ new,
    (display_refresh policy rs evlist tty).2 = tty ++ new ∧
    Forall (tty_action_ok ICANON ECHO save) new ∧
    count_tcsetattr TCSANOW new = 0%nat ∧
    count_tcsetattr TCSAFLUSH new = 0%nat ∧
    Forall2 display_frame evlist (display_refresh policy rs evlist tty).1.2 ∧
    ((display_refresh policy rs evlist tty).1.1 = true →
     ∃ r, r ∈ rs ∧ stdin_poll r ≠ 0).
Proof.
  induction rs as [|r rs IH]; intros evlist tty.
  - exists []. simpl. rewrite app_nil_r.
    repeat split; try done. apply display_frame_refl.
  - cbn [display_refresh].
    destruct (Z.eqb_spec (stdin_poll r) 0) as [Hpoll|Hpoll].
    + destruct (IH (perf_evlist__fprintf_hists policy evlist).2
                   (tty ++ [PutsClear; FprintfHists (ws_row r - 3) (ws_col r);
                            Poll (2 * 1000)]))
        as (new & Htty & Hok & Hnow & Hflush & Hframe & Hout).
      exists ([PutsClear; FprintfHists (ws_row r - 3) (ws_col r);
               Poll (2 * 1000)] ++ new).
      split; [by rewrite Htty, app_assoc|].
      split; [by repeat constructor|].
      rewrite !count_tcsetattr_app, Hnow, Hflush.
      split; [done|]. split; [done|]. split.
      * eapply display_frame_trans; [apply fprintf_hists_frame | exact Hframe].
      * intros Ho. destruct (Hout Ho) as (r' & Hin & Hne).
        exists r'. split; [by right | done].
    + exists [PutsClear; FprintfHists (ws_row r - 3) (ws_col r);
              Poll (2 * 1000)].
      split; [done|]. split; [by repeat constructor|].
      split; [done|]. split; [done|]. split.
      * apply fprintf_hists_frame.
      * intros _. exists r. split; [by left | done].
Qed.

Lemma display_rounds_effects rounds : ∀ evlist tty,
  ∃ new,
    (display_rounds ICANON ECHO policy save rounds evlist tty).2 = tty ++ new ∧
    Forall (tty_action_ok ICANON ECHO save) new ∧
    Forall2 display_frame evlist
      (display_rounds ICANON ECHO policy save rounds evlist tty).1.2 ∧
    (count_tcsetattr TCSAFLUSH new ≤ count_tcsetattr TCSANOW new
     ≤ S (count_tcsetattr TCSAFLUSH new))%nat ∧
    ((display_rounds ICANON ECHO policy save rounds evlist tty).1.1 = true →
     count_tcsetattr TCSANOW new = count_tcsetattr TCSAFLUSH new ∧
     last new = Some (TcSetAttr TCSAFLUSH save) ∧
     ∃ round, round ∈ rounds ∧ key round = key_q ∧
              ∃ r, r ∈ refreshes round ∧ stdin_poll r ≠ 0).
Proof.
  induction rounds as [|round rounds IH]; intros evlist tty.
  - exists []. simpl. rewrite app_nil_r.
    repeat split; try done; [apply display_frame_refl | cbv; lia].
  - cbn [display_rounds].
    destruct (display_refresh_effects (refreshes round) evlist
                (tty ++ [TcSetAttr TCSANOW (display_termios ICANON ECHO save);
                         Getc]))
      as (new1 & Htty1 & Hok1 & Hnow1 & Hflush1 & Hframe1 & Hout1).
    destruct (display_refresh policy (refreshes round) evlist _)
      as [[out evlist1] tty1].
    simpl in Htty1, Hframe1, Hout1. subst tty1.
    destruct out.
    2: { exists ([TcSetAttr TCSANOW (display_termios ICANON ECHO save); Getc]
                 ++ new1).
         cbn [fst snd]. split; [by rewrite <- app_assoc|].
         split; [apply Forall_app; split; [by repeat constructor | done]|].
         split; [done|].
         rewrite !count_tcsetattr_app, Hnow1, Hflush1.
         split; [by cbv; lia|]. done. }
    destruct (Hout1 eq_refl) as (r & Hr & Hpoll).
    destruct (Z.eqb_spec (key round) key_q) as [Hkey|Hkey].
    + exists ([TcSetAttr TCSANOW (display_termios ICANON ECHO save); Getc]
              ++ new1 ++ [Getc; TcSetAttr TCSAFLUSH save]).
      cbn [fst snd]. split; [by rewrite <- !app_assoc|].
      split.
      { apply Forall_app. split; [by repeat constructor|].
        apply Forall_app. split; [done | by repeat constructor]. }
      split; [done|].
      rewrite !count_tcsetattr_app, Hnow1, Hflush1.
      split; [by cbv; lia|]. intros _.
      split; [by cbv|]. split.
      * change [Getc; TcSetAttr TCSAFLUSH save]
          with ([Getc] ++ [TcSetAttr TCSAFLUSH save]).
        by rewrite !app_assoc, last_snoc.
      * exists round. split; [by left|]. split; [done|]. by exists r.
    + destruct (IH evlist1
                   (((tty ++ [TcSetAttr TCSANOW
                                (display_termios ICANON ECHO save); Getc])
                      ++ new1) ++ [Getc; TcSetAttr TCSAFLUSH save]))
        as (new2 & Htty2 & Hok2 & Hframe2 & Hbal2 & Hret2).
      exists (([TcSetAttr TCSANOW (display_termios ICANON ECHO save); Getc]
                 ++ new1 ++ [Getc; TcSetAttr TCSAFLUSH save]) ++ new2).
      split; [by rewrite Htty2, <- !app_assoc|].
      split.
      { apply Forall_app. split; [|done].
        apply Forall_app. split; [by repeat constructor|].
        apply Forall_app. split; [done | by repeat constructor]. }
      split; [by eapply display_frame_trans|].
      rewrite !count_tcsetattr_app, Hnow1, Hflush1.
      change (count_tcsetattr TCSANOW
                [TcSetAttr TCSANOW (display_termios ICANON ECHO save); Getc])
        with 1%nat.
      change (count_tcsetattr TCSAFLUSH
                [TcSetAttr TCSANOW (display_termios ICANON ECHO save); Getc])
        with 0%nat.
      change (count_tcsetattr TCSANOW [Getc; TcSetAttr TCSAFLUSH save])
        with 0%nat.
      change (count_tcsetattr TCSAFLUSH [Getc; TcSetAttr TCSAFLUSH save])
        with 1%nat.
      split; [lia|]. intros Hret.
      destruct (Hret2 Hret) as (Hcount & Hlast & round' & Hin & Hq & Hrs).
      split; [lia|]. split.
      * destruct new2 as [|x new2]; [done|].
        rewrite last_app. by rewrite Hlast.
      * exists round'. split; [by right | done].
Qed.

(** X19.  [display_thread] returns only after a key press that reads as
    'q': some round saw [poll] on stdin return non-zero and then read 'q'.
    When it returns, the last thing it did to the terminal was to put back
    the settings it had saved, and it has put them back as often as it
    installed its own.  With no 'q' among the keys it never returns. *)
Theorem display_returns_on_q_terminal_restored
    (rounds : list display_round) (top_evlist : list perf_evsel) :
  ((display_thread ICANON ECHO policy save rounds top_evlist).1.1 = true →
   (∃ round, round ∈ rounds ∧ key round = key_q ∧
             ∃ r, r ∈ refreshes round ∧ stdin_poll r ≠ 0) ∧
   last (display_thread ICANON ECHO policy save rounds top_evlist).2
   = Some (TcSetAttr TCSAFLUSH save) ∧
   count_tcsetattr TCSANOW
     (display_thread ICANON ECHO policy save rounds top_evlist).2
   = count_tcsetattr TCSAFLUSH
       (display_thread ICANON ECHO policy save rounds top_evlist).2) ∧
  (Forall (λ round, key round ≠ key_q) rounds →
   (display_thread ICANON ECHO policy save rounds top_evlist).1.1 = false).
Proof.
  unfold display_thread.
  destruct (display_rounds_effects rounds top_evlist [])
    as (new & Htty & _ & _ & _ & Hret).
  rewrite Htty. simpl. split.
  - intros Hreturned. destruct (Hret Hreturned) as (Hcount & Hlast & Hround).
    by repeat split.
  - intros Hkeys. apply not_true_is_false. intros Hreturned.
    destruct (Hret Hreturned) as (_ & _ & round & Hin & Hq & _).
    rewrite Forall_forall in Hkeys. by apply (Hkeys round).
Qed.

(** X21.  The terminal discipline of [display_thread].  The settings it
    installs at once are the saved ones with ICANON and ECHO cleared, every
    other local flag as saved, and VMIN and VTIME zero; the settings it
    installs with a flush are the saved ones; every wait on stdin has a
    timeout of 2000 ms; and at any moment it has installed its own settings
    as often as it has restored the saved ones, or once more. *)
Theorem display_terminal_discipline
    (rounds : list display_round) (top_evlist : list perf_evsel) :
  Forall (λ a, match a with
               | TcSetAttr TCSANOW t => t = display_termios ICANON ECHO save
               | TcSetAttr TCSAFLUSH t => t = save
               | Poll timeout => timeout = 2000
               | _ => True
               end)
         (display_thread ICANON ECHO policy save rounds top_evlist).2 ∧
  (count_tcsetattr TCSAFLUSH
     (display_thread ICANON ECHO policy save rounds top_evlist).2
   ≤ count_tcsetattr TCSANOW
       (display_thread ICANON ECHO policy save rounds top_evlist).2
   ≤ S (count_tcsetattr TCSAFLUSH
          (display_thread ICANON ECHO policy save rounds top_evlist).2))%nat ∧
  flag_clear (c_lflag (display_termios ICANON ECHO save)) ICANON ∧
  flag_clear (c_lflag (display_termios ICANON ECHO save)) ECHO ∧
  (∀ flag, flag_clear flag (Z.lor ICANON ECHO) →
           Z.land (c_lflag (display_termios ICANON ECHO save)) flag
           = Z.land (c_lflag save) flag) ∧
  c_cc_VMIN (display_termios ICANON ECHO save) = 0 ∧
  c_cc_VTIME (display_termios ICANON ECHO save) = 0.
Proof.
  unfold display_thread.
  destruct (display_rounds_effects rounds top_evlist [])
    as (new & Htty & Hok & _ & Hbal & _).
  rewrite Htty. simpl.
  split; [exact Hok|]. split; [exact Hbal|].
  unfold flag_clear. simpl.
  repeat split; try done.
  - apply Z.bits_inj'. intros i Hi.
    rewrite !Z.land_spec, Z.lnot_spec, Z.lor_spec, Z.bits_0 by done.
    by destruct (Z.testbit (c_lflag save) i), (Z.testbit ICANON i),
      (Z.testbit ECHO i).
  - apply Z.bits_inj'. intros i Hi.
    rewrite !Z.land_spec, Z.lnot_spec, Z.lor_spec, Z.bits_0 by done.
    by destruct (Z.testbit (c_lflag save) i), (Z.testbit ICANON i),
      (Z.testbit ECHO i).
  - intros flag Hflag. apply Z.bits_inj'. intros i Hi.
    apply (f_equal (λ z, Z.testbit z i)) in Hflag.
    rewrite Z.land_spec, Z.lor_spec, Z.bits_0 in Hflag.
    rewrite !Z.land_spec, Z.lnot_spec, Z.lor_spec by done.
    destruct (Z.testbit (c_lflag save) i), (Z.testbit ICANON i),
      (Z.testbit ECHO i), (Z.testbit flag i); simpl in *; congruence.
Qed.

End DisplayFacts.

(** ** Instances *)

Lemma start_changes_only_cycles_events_witness :
  match perf_evlist__start (abi := linux_abi) default_options
          (kernel_first_fails (@ENOENT linux_abi)) 2
          [evsel_new 0 0 1000; evsel_new 1 3 1000] negotiation_start with
  | Some (ret, evlist', _) =>
      (ret = 0 ∨ ret = -1) ∧
      Forall2 (λ e e',
                 evsel_hists e' = evsel_hists e ∧
                 (attr_event (attr e') = attr_event (attr e) ∨
                  (is_hw_cycles (abi := linux_abi) (attr e) = true ∧
                   attr_event (attr e') = (1, 0))))
              [evsel_new 0 0 1000; evsel_new 1 3 1000] evlist'
  | None => False
  end.
Proof.
  destruct (perf_evlist__start _ _ _ _ _) as [[[ret evlist'] n']|] eqn:Hrun.
  - exact (start_changes_only_cycles_events (abi := linux_abi) _ _ _ _ _ _ _ _
             Hrun).
  - vm_compute in Hrun. discriminate.
Defined.

Lemma start_gives_one_sample_layout_witness :
  match perf_evlist__start (abi := linux_abi) default_options kernel_ok 2
          [evsel_new 0 0 1000; evsel_new 1 3 1000] negotiation_start with
  | Some (_, evlist', _) =>
      ∀ evsel', evsel' ∈ evlist' →
        attr_sample_type (attr evsel') = 323 ∧
        attr_mmap (attr evsel') = true ∧
        attr_inherit (attr evsel') = false
  | None => False
  end.
Proof.
  destruct (perf_evlist__start _ _ _ _ _) as [[[ret evlist'] n']|] eqn:Hrun.
  - assert (ret = 0) as -> by (vm_compute in Hrun; congruence).
    intros evsel' Hin.
    exact (start_gives_one_sample_layout (abi := linux_abi) _ _ _ _ _ _ _ _
             Hrun Hin).
  - vm_compute in Hrun. discriminate.
Defined.

Lemma start_opens_each_descriptor_once_or_twice_witness :
  match perf_evlist__start (abi := linux_abi) default_options
          (kernel_first_fails (@ENOENT linux_abi)) 2
          [evsel_new 0 0 1000; evsel_new 1 3 1000] negotiation_start with
  | Some (ret, _, n') =>
      ∃ new_opens,
        opens n' = [] ++ new_opens ∧
        (length new_opens ≤ 2 * 2)%nat ∧
        (ret = 0 → (2 ≤ length new_opens)%nat)
  | None => False
  end.
Proof.
  destruct (perf_evlist__start _ _ _ _ _) as [[[ret evlist'] n']|] eqn:Hrun.
  - exact (start_opens_each_descriptor_once_or_twice (abi := linux_abi)
             _ _ _ _ _ _ _ _ ltac:(vm_compute; discriminate) Hrun).
  - vm_compute in Hrun. discriminate.
Defined.

Lemma start_warns_once_on_failure_witness :
  match perf_evlist__start (abi := linux_abi) default_options
          (kernel_fails (@EPERM linux_abi)) 2
          [evsel_new 0 0 1000] negotiation_start with
  | Some (ret, _, n') => ret = -1 ∧ warnings n' = [UiWarningParanoid]
  | None => False
  end.
Proof.
  destruct (perf_evlist__start _ _ _ _ _) as [[[ret evlist'] n']|] eqn:Hrun.
  - destruct (start_warns_once_on_failure (abi := linux_abi) default_options
                _ _ _ _ _ _ _ eq_refl Hrun) as [(_ & _ & _) | (-> & m & Hm)];
      vm_compute in Hrun; inversion Hrun; subst; by split.
  - vm_compute in Hrun. discriminate.
Defined.

Lemma command_acts_only_after_setup_witness :
  session_new_ok (startup_ok default_options []) = true ∧
  (default_interval default_options ≠ 0 ∨ freq default_options ≠ 0).
Proof.
  destruct (cmd_htop (abi := linux_abi) id2evsel_from_10 kernel_ok 2
              (startup_ok default_options []) []) as [r|] eqn:Hrun.
  - assert (run_polls r ≠ []) as Hpolls.
    { vm_compute in Hrun. inversion Hrun; subst. discriminate. }
    destruct (command_acts_only_after_setup (abi := linux_abi) _ _ _ _ _ _
                Hrun (or_intror Hpolls))
      as (_ & _ & _ & _ & _ & _ & Hsession & Hrate).
    by split.
  - vm_compute in Hrun. discriminate.
Defined.



Lemma first_open_is_first_selected_event_witness :
  attr_event cycles_attr = (0, 0) ∧
  (let a := start_attr (abi := linux_abi)
              (options_set_rate default_options 1000 1000) 1
              (attr (evsel_new 1 3 1000)) in
   attr_event a = (1, 3)).
Proof.
  split.
  - destruct (cmd_htop (abi := linux_abi) id2evsel_from_10 kernel_ok 2
                (startup_ok default_options []) []) as [r|] eqn:Hrun;
      [|vm_compute in Hrun; discriminate].
    apply (first_open_is_first_selected_event (abi := linux_abi)
             _ _ _ _ _ r cycles_attr [] Hrun); [|reflexivity].
    vm_compute in Hrun. by inversion Hrun.
  - intros a.
    destruct (cmd_htop (abi := linux_abi) id2evsel_from_10 kernel_ok 2
                (startup_ok default_options [evsel_new 1 3 1000]) [])
      as [r|] eqn:Hrun; [|vm_compute in Hrun; discriminate].
    apply (proj2 (first_open_is_first_selected_event (abi := linux_abi)
                    _ _ _ _ _ r a [] Hrun
                    ltac:(vm_compute in Hrun; by inversion Hrun))
             (evsel_new 1 3 1000) []).
    reflexivity.
Defined.

Lemma command_never_opens_zero_rate_witness :
  match cmd_htop (abi := linux_abi) id2evsel_from_10 kernel_ok 2
          (startup_ok count_options [evsel_new 1 3 0; evsel_new 0 0 77]) []
  with
  | Some r => Forall (λ a, attr_sample_period a ≠ 0) (run_opens r)
  | None => False
  end.
Proof.
  destruct (cmd_htop _ _ _ _ _) as [r|] eqn:Hrun.
  - apply (command_never_opens_zero_rate (abi := linux_abi)
             id2evsel_from_10 kernel_ok 2
             (startup_ok count_options [evsel_new 1 3 0; evsel_new 0 0 77])
             [] r); [| |exact Hrun].
    + unfold is_int. simpl. lia.
    + unfold is_int. simpl. lia.
  - vm_compute in Hrun. discriminate.
Defined.

Lemma display_returns_on_q_terminal_restored_witness :
  last (display_thread 2 8 (λ a b, bool_decide (a = b)) cooked_termios
          two_rounds [evsel_new 0 0 1000]).2
  = Some (TcSetAttr TCSAFLUSH cooked_termios).
Proof.
  apply (proj1 (display_returns_on_q_terminal_restored 2 8
                  (λ a b, bool_decide (a = b)) cooked_termios two_rounds
                  [evsel_new 0 0 1000])).
  reflexivity.
Defined.
